(** * kol.geometry: rigid-body and mesh utilities

    A shallow embedding of [kol/geometry.py].  The Python module computes
    with NumPy arrays of binary64 floats.  Its arithmetic is given here as an
    interface ([Arith], [Trig]) that the functions are written against once,
    with two instances:

    - [float] (the kernel's IEEE 754 binary64 numbers): the arithmetic the
      program runs on, NaN and infinities included; definitions evaluate
      with it;
    - [R] (real numbers): the exact arithmetic in which the algebraic laws
      (sums, the parallel-axis theorem, inverses, the Euler round trip) hold
      without rounding.

    Exceptions are values of an error monad. *)

From Stdlib Require Import ZArith List Reals Lra Lia RNsatz Floats String.
From stdpp Require Import base option gmap strings.

Set Default Proof Using "Type".

(** ** Exceptions *)

Inductive exn : Type :=
| ValueError (msg : string)
| IndexError
| LinAlgError.

Inductive result (A : Type) : Type :=
| Ok (a : A)
| Raise (e : exn).
Arguments Ok {A} a.
Arguments Raise {A} e.

#[global] Instance result_ret : MRet result := fun _ a => Ok a.
#[global] Instance result_bind : MBind result := fun _ _ f m =>
  match m with
  | Ok a => f a
  | Raise e => Raise e
  end.

Definition raises {A} (m : result A) : bool :=
  match m with Ok _ => false | Raise _ => true end.

Definition is_ValueError {A} (m : result A) : bool :=
  match m with Raise (ValueError _) => true | _ => false end.

(** A [for] loop that threads an accumulator and stops at the first
    exception. *)
Fixpoint for_each {A S : Type} (body : S -> A -> result S) (l : list A) (s : S)
  : result S :=
  match l with
  | [] => Ok s
  | a :: l' => s' ← body s a; for_each body l' s'
  end.

(** ** The arithmetic interface *)

Class Arith (F : Type) : Type := {
  fzero : F;                       (* 0.0 *)
  fone : F;                        (* 1.0 *)
  lit_4 : F;                       (* 4.0 *)
  lit_6 : F;                       (* 6.0 *)
  lit_1em6 : F;                    (* 1e-6 *)
  fadd : F -> F -> F;
  fsub : F -> F -> F;
  fmul : F -> F -> F;
  fdiv : F -> F -> F;
  fneg : F -> F;
  fltb : F -> F -> bool;           (* x < y *)
  fleb : F -> F -> bool;           (* x <= y *)
  feqb : F -> F -> bool            (* x == y *)
}.

(** [str(x)], Python's rendering of a number as text. *)
Class Render (F : Type) : Type := {
  py_str : F -> string
}.

(** [math.sqrt], [math.atan2], [np.sin], [np.cos]. *)
Class Trig (F : Type) : Type := {
  fsqrt : F -> F;
  fatan2 : F -> F -> F;
  fsin : F -> F;
  fcos : F -> F
}.

Declare Scope num_scope.
Delimit Scope num_scope with num.
Infix "+" := fadd : num_scope.
Infix "-" := fsub : num_scope.
Infix "*" := fmul : num_scope.
Infix "/" := fdiv : num_scope.
Notation "- x" := (fneg x) : num_scope.
Infix "<?" := fltb : num_scope.
Infix "<=?" := fleb : num_scope.
Infix "=?" := feqb : num_scope.
Notation "0" := fzero : num_scope.
Notation "1" := fone : num_scope.

(** What the theorems about [scale > 0] need of the order: a number above
    zero is not [<= 0]. *)
Class ArithOrder (F : Type) `{Arith F} : Prop := {
  fltb_fleb_zero : forall x : F, (0 <? x)%num = true -> (x <=? 0)%num = false
}.

(** *** IEEE 754 binary64 *)

#[global] Instance float_arith : Arith float := {|
  fzero := 0%float;
  fone := 1%float;
  lit_4 := 4%float;
  lit_6 := 6%float;
  lit_1em6 := 0x1.0c6f7a0b5ed8dp-20%float;   (* the binary64 nearest to 1e-6 *)
  fadd := PrimFloat.add;
  fsub := PrimFloat.sub;
  fmul := PrimFloat.mul;
  fdiv := PrimFloat.div;
  fneg := PrimFloat.opp;
  fltb := PrimFloat.ltb;
  fleb := PrimFloat.leb;
  feqb := PrimFloat.eqb
|}.

(** Neither a finite number: NaN or an infinity. *)
Definition non_finite (x : float) : bool :=
  is_nan x || is_infinity x.

(** *** Real numbers *)

#[global] Instance Rlt_decision (x y : R) : Decision (x < y)%R := Rlt_dec x y.
#[global] Instance Rle_decision (x y : R) : Decision (x <= y)%R := Rle_dec x y.
#[global] Instance Req_decision : EqDecision R := Req_dec_T.

#[global] Instance R_arith : Arith R := {|
  fzero := 0%R;
  fone := 1%R;
  lit_4 := 4%R;
  lit_6 := 6%R;
  lit_1em6 := (1 / 1000000)%R;
  fadd := Rplus;
  fsub := Rminus;
  fmul := Rmult;
  fdiv := Rdiv;
  fneg := Ropp;
  fltb := fun x y => bool_decide (x < y)%R;
  fleb := fun x y => bool_decide (x <= y)%R;
  feqb := fun x y => bool_decide (x = y)
|}.

(** [math.atan2(y, x)] on real numbers: the angle in (-pi, pi] of the
    point (x, y), and 0 at the origin. *)
Definition Ratan2 (y x : R) : R :=
  if decide (0 < x)%R then atan (y / x)
  else if decide (x < 0)%R then
    (if decide (0 <= y)%R then atan (y / x) + PI else atan (y / x) - PI)%R
  else if decide (0 < y)%R then (PI / 2)%R
  else if decide (y < 0)%R then (- PI / 2)%R
  else 0%R.

#[global] Instance R_trig : Trig R := {|
  fsqrt := R_sqrt.sqrt;
  fatan2 := Ratan2;
  fsin := sin;
  fcos := cos
|}.

(** ** Vectors and matrices

    Arrays of a fixed shape are tuples: a 3-vector, a 3x3 matrix by rows, a
    4x4 matrix by rows.  Sums of products are taken left to right. *)

Definition vec3 (F : Type) : Type := F * F * F.
Definition mat3 (F : Type) : Type := vec3 F * vec3 F * vec3 F.
Definition vec4 (F : Type) : Type := F * F * F * F.
Definition mat4 (F : Type) : Type := vec4 F * vec4 F * vec4 F * vec4 F.

Section LinearAlgebra.
Context {F : Type} `{Arith F}.
Local Open Scope num_scope.

(** [np.zeros(3)], [np.zeros((3, 3))], [np.eye(3)] *)
Definition zeros3 : vec3 F := (0, 0, 0).
Definition zeros33 : mat3 F := (zeros3, zeros3, zeros3).
Definition eye3 : mat3 F := ((1, 0, 0), (0, 1, 0), (0, 0, 1)).
Definition eye4 : mat4 F :=
  ((1, 0, 0, 0), (0, 1, 0, 0), (0, 0, 1, 0), (0, 0, 0, 1)).

(** Elementwise operations on 3-vectors, with a scalar broadcast. *)
Definition vadd (a b : vec3 F) : vec3 F :=
  let '(a0, a1, a2) := a in let '(b0, b1, b2) := b in
  (a0 + b0, a1 + b1, a2 + b2).
Definition vsub (a b : vec3 F) : vec3 F :=
  let '(a0, a1, a2) := a in let '(b0, b1, b2) := b in
  (a0 - b0, a1 - b1, a2 - b2).
Definition vmuls (a : vec3 F) (s : F) : vec3 F :=
  let '(a0, a1, a2) := a in (a0 * s, a1 * s, a2 * s).
Definition smulv (s : F) (a : vec3 F) : vec3 F :=
  let '(a0, a1, a2) := a in (s * a0, s * a1, s * a2).
Definition vdivs (a : vec3 F) (s : F) : vec3 F :=
  let '(a0, a1, a2) := a in (a0 / s, a1 / s, a2 / s).

(** [np.dot(a, b)] and [np.cross(a, b)] on 3-vectors. *)
Definition dot (a b : vec3 F) : F :=
  let '(a0, a1, a2) := a in let '(b0, b1, b2) := b in
  a0 * b0 + a1 * b1 + a2 * b2.
Definition cross (a b : vec3 F) : vec3 F :=
  let '(a0, a1, a2) := a in let '(b0, b1, b2) := b in
  (a1 * b2 - a2 * b1, a2 * b0 - a0 * b2, a0 * b1 - a1 * b0).

(** [p.T * p] for the 1x3 matrix [p] of the vector [r]: the outer
    product. *)
Definition outer (a b : vec3 F) : mat3 F :=
  let '(a0, a1, a2) := a in
  (smulv a0 b, smulv a1 b, smulv a2 b).

(** Elementwise operations on 3x3 matrices. *)
Definition madd (a b : mat3 F) : mat3 F :=
  let '(a0, a1, a2) := a in let '(b0, b1, b2) := b in
  (vadd a0 b0, vadd a1 b1, vadd a2 b2).
Definition msub (a b : mat3 F) : mat3 F :=
  let '(a0, a1, a2) := a in let '(b0, b1, b2) := b in
  (vsub a0 b0, vsub a1 b1, vsub a2 b2).
Definition smulm (s : F) (a : mat3 F) : mat3 F :=
  let '(a0, a1, a2) := a in (smulv s a0, smulv s a1, smulv s a2).
Definition mmuls (a : mat3 F) (s : F) : mat3 F :=
  let '(a0, a1, a2) := a in (vmuls a0 s, vmuls a1 s, vmuls a2 s).

(** [a.T] and [a @ b] on 3x3 matrices. *)
Definition transpose3 (a : mat3 F) : mat3 F :=
  let '((a00, a01, a02), (a10, a11, a12), (a20, a21, a22)) := a in
  ((a00, a10, a20), (a01, a11, a21), (a02, a12, a22)).
Definition rowmul3 (r : vec3 F) (b : mat3 F) : vec3 F :=
  let '(c0, c1, c2) := transpose3 b in (dot r c0, dot r c1, dot r c2).
Definition matmul3 (a b : mat3 F) : mat3 F :=
  let '(a0, a1, a2) := a in (rowmul3 a0 b, rowmul3 a1 b, rowmul3 a2 b).

(** [np.dot(a, b)] on 4x4 matrices. *)
Definition dot4 (a b : vec4 F) : F :=
  let '(a0, a1, a2, a3) := a in let '(b0, b1, b2, b3) := b in
  a0 * b0 + a1 * b1 + a2 * b2 + a3 * b3.
Definition transpose4 (a : mat4 F) : mat4 F :=
  let '((a00, a01, a02, a03), (a10, a11, a12, a13),
        (a20, a21, a22, a23), (a30, a31, a32, a33)) := a in
  ((a00, a10, a20, a30), (a01, a11, a21, a31),
   (a02, a12, a22, a32), (a03, a13, a23, a33)).
Definition rowmul4 (r : vec4 F) (b : mat4 F) : vec4 F :=
  let '(c0, c1, c2, c3) := transpose4 b in
  (dot4 r c0, dot4 r c1, dot4 r c2, dot4 r c3).
Definition matmul4 (a b : mat4 F) : mat4 F :=
  let '(a0, a1, a2, a3) := a in
  (rowmul4 a0 b, rowmul4 a1 b, rowmul4 a2 b, rowmul4 a3 b).

(** [m[0:3, 0:3]]: the rotation block of a homogeneous transform. *)
Definition rotation_block (m : mat4 F) : mat3 F :=
  let '((a00, a01, a02, _), (a10, a11, a12, _), (a20, a21, a22, _), _) := m in
  ((a00, a01, a02), (a10, a11, a12), (a20, a21, a22)).
End LinearAlgebra.

(** ** Arrays whose shape the program inspects *)

(** An [np.ndarray]: its shape and its entries in row-major order. *)
Record ndarray (F : Type) : Type := {
  shape : list nat;
  data : list F
}.
Arguments shape {F} _.
Arguments data {F} _.

(** An argument as Python passes it: an [np.ndarray], or an object of
    another type (a list, a tuple, [None], ...). *)
Inductive pyobj (F : Type) : Type :=
| PyNdarray (a : ndarray F)
| PyOther.
Arguments PyNdarray {F} a.
Arguments PyOther {F}.

(** The argument [inertia : list[float] | np.matrix] of
    [transform_inertia_tensor]. *)
Inductive inertia_arg (F : Type) : Type :=
| InertiaList (l : list F)
| InertiaMatrix (m : mat3 F).
Arguments InertiaList {F} l.
Arguments InertiaMatrix {F} m.

(** A value stored in a Python dict: a number or a string. *)
Inductive pyvalue (F : Type) : Type :=
| PyFloat (x : F)
| PyStr (s : string).
Arguments PyFloat {F} x.
Arguments PyStr {F} s.

(** Modelled from the spec: [kol.mesh.Mesh] is imported by the module and
    not part of it.  A mesh is a point set plus an ordered sequence of
    triangular faces, each face a triple of indices into the point set. *)
Record Mesh (F : Type) : Type := {
  points : list (vec3 F);
  faces : list (Z * Z * Z)
}.
Arguments Build_Mesh {F} _ _.
Arguments points {F} _.
Arguments faces {F} _.

(** The spec's invariant of a mesh: every face index [i] has
    [0 <= i < len(points)]. *)
Definition valid_index {A} (l : list A) (i : Z) : Prop :=
  (0 <= i < Z.of_nat (length l))%Z.
Definition valid_mesh {F} (mesh : Mesh F) : Prop :=
  Forall (fun triangle : Z * Z * Z =>
            let '(v0, v1, v2) := triangle in
            valid_index (points mesh) v0 /\
            valid_index (points mesh) v1 /\
            valid_index (points mesh) v2) (faces mesh).

(** [a[i]] on the first axis of an array: a negative index counts from the
    end, an index out of range raises [IndexError]. *)
Definition py_index {A} (l : list A) (i : Z) : result A :=
  let n := Z.of_nat (length l) in
  let j := if (i <? 0)%Z then (i + n)%Z else i in
  if ((0 <=? j)%Z && (j <? n)%Z)%bool then
    match nth_error l (Z.to_nat j) with
    | Some a => Ok a
    | None => Raise IndexError
    end
  else Raise IndexError.

(** The class [Dynamics] of the module. *)
Record Dynamics (F : Type) : Type := {
  mass : F;
  com : vec3 F;
  inertia : mat3 F
}.
Arguments Build_Dynamics {F} _ _ _.
Arguments mass {F} _.
Arguments com {F} _.
Arguments inertia {F} _.

(** ** The functions of the module *)

Section Geometry.
Context {F : Type} `{Arith F}.
Local Open Scope num_scope.

(** *** Reading arrays *)

(** Entry [k] of an array's data.  An array holds as many entries as its
    shape says; the default is never read on such an array. *)
Definition entry (a : ndarray F) (k : nat) : F := nth k (data a) 0.

(** A 1-D array from its entries, a 4x4 array from a matrix, and back. *)
Definition array1 (l : list F) : ndarray F :=
  {| shape := [length l]; data := l |}.
Definition ndarray_of_mat4 (m : mat4 F) : ndarray F :=
  let '((a00, a01, a02, a03), (a10, a11, a12, a13),
        (a20, a21, a22, a23), (a30, a31, a32, a33)) := m in
  {| shape := [4; 4]%nat;
     data := [a00; a01; a02; a03; a10; a11; a12; a13;
              a20; a21; a22; a23; a30; a31; a32; a33] |}.
Definition mat4_of_ndarray (a : ndarray F) : mat4 F :=
  ((entry a 0, entry a 1, entry a 2, entry a 3),
   (entry a 4, entry a 5, entry a 6, entry a 7),
   (entry a 8, entry a 9, entry a 10, entry a 11),
   (entry a 12, entry a 13, entry a 14, entry a 15)).

(** The rows of a 3x3 matrix one after the other, and
    [np.array(l).reshape(3, 3)], which raises [ValueError] unless [l] has 9
    entries. *)
Definition flatten3 (m : mat3 F) : list F :=
  let '((a00, a01, a02), (a10, a11, a12), (a20, a21, a22)) := m in
  [a00; a01; a02; a10; a11; a12; a20; a21; a22].
Definition reshape33 (l : list F) : result (mat3 F) :=
  match l with
  | [a00; a01; a02; a10; a11; a12; a20; a21; a22] =>
      Ok ((a00, a01, a02), (a10, a11, a12), (a20, a21, a22))
  | _ => Raise (ValueError "cannot reshape array into shape (3,3)")
  end.

(** *** rotation_matrix_to_euler_angles *)

Definition rotation_matrix_to_euler_angles `{Trig F} (rotation_matrix : mat3 F)
  : F * F * F :=
  let '((r00, r01, r02), (r10, r11, r12), (r20, r21, r22)) := rotation_matrix in
  let sy := fsqrt (r00 * r00 + r10 * r10) in
  let singular := sy <? lit_1em6 in
  if singular then
    (fatan2 (- r12) r11, fatan2 (- r20) sy, 0)
  else
    (fatan2 r21 r22, fatan2 (- r20) sy, fatan2 r10 r00).

(** *** inv_tf *)

(** Determinant and cofactors of a 4x4 matrix, by expansion along the first
    row. *)
Definition det3 (m : mat3 F) : F :=
  let '((a, b, c), (d, e, f), (g, h, i)) := m in
  a * (e * i - f * h) - b * (d * i - f * g) + c * (d * h - e * g).
Definition drop4 (k : nat) (v : vec4 F) : vec3 F :=
  let '(a0, a1, a2, a3) := v in
  match k with
  | 0%nat => (a1, a2, a3)
  | 1%nat => (a0, a2, a3)
  | 2%nat => (a0, a1, a3)
  | _ => (a0, a1, a2)
  end.
Definition minor4 (m : mat4 F) (i j : nat) : mat3 F :=
  let '(r0, r1, r2, r3) := m in
  let '(p, q, r) :=
    match i with
    | 0%nat => (r1, r2, r3)
    | 1%nat => (r0, r2, r3)
    | 2%nat => (r0, r1, r3)
    | _ => (r0, r1, r2)
    end in
  (drop4 j p, drop4 j q, drop4 j r).
Definition cofactor4 (m : mat4 F) (i j : nat) : F :=
  let d := det3 (minor4 m i j) in
  if Nat.even (i + j) then d else - d.
Definition det4 (m : mat4 F) : F :=
  let '((a, b, c, d), _, _, _) := m in
  a * cofactor4 m 0 0 + b * cofactor4 m 0 1
  + c * cofactor4 m 0 2 + d * cofactor4 m 0 3.

Definition adjugate4 (m : mat4 F) : mat4 F :=
  let c i j := cofactor4 m j i in
  ((c 0 0, c 0 1, c 0 2, c 0 3)%nat,
   (c 1 0, c 1 1, c 1 2, c 1 3)%nat,
   (c 2 0, c 2 1, c 2 2, c 2 3)%nat,
   (c 3 0, c 3 1, c 3 2, c 3 3)%nat).
Definition vec4_divs (v : vec4 F) (s : F) : vec4 F :=
  let '(a0, a1, a2, a3) := v in (a0 / s, a1 / s, a2 / s, a3 / s).
Definition mat4_divs (m : mat4 F) (s : F) : mat4 F :=
  let '(r0, r1, r2, r3) := m in
  (vec4_divs r0 s, vec4_divs r1 s, vec4_divs r2 s, vec4_divs r3 s).

(** [np.linalg.inv] is NumPy's.  It is given here by its contract: the
    inverse of an invertible matrix (the transposed cofactors over the
    determinant), [LinAlgError] on a singular one.  NumPy computes the inverse
    by an LU factorisation; this definition is that result in exact
    arithmetic, not its rounding in binary64. *)
Definition linalg_inv (m : mat4 F) : result (mat4 F) :=
  let d := det4 m in
  if d =? 0 then Raise LinAlgError
  else Ok (mat4_divs (adjugate4 m) d).

Definition inv_tf (a_to_b_tf : mat4 F) : result (mat4 F) :=
  linalg_inv a_to_b_tf.

(** *** transform_inertia_tensor *)

Definition transform_inertia_tensor (inertia : inertia_arg F) (rotation : mat3 F)
  : result (mat3 F) :=
  inertia_matrix ← match inertia with
                    | InertiaList l => reshape33 l
                    | InertiaMatrix m => Ok m
                    end;
  Ok (matmul3 (matmul3 (transpose3 rotation) inertia_matrix) rotation).

(** *** combine_dynamics *)

Definition combine_dynamics (dynamics : list (Dynamics F)) : Dynamics F :=
  let '(mass_, com_) :=
    fold_left (fun '(mass_, com_) dynamic =>
                 (mass_ + mass dynamic, vadd com_ (vmuls (com dynamic) (mass dynamic))))
              dynamics (0, zeros3) in
  let com_ := if 0 <? mass_ then vdivs com_ mass_ else com_ in
  let inertia_ :=
    fold_left (fun inertia_ dynamic =>
                 let r := vsub (com dynamic) com_ in
                 madd (madd inertia_ (inertia dynamic))
                      (mmuls (msub (smulm (dot r r) eye3) (outer r r))
                             (mass dynamic)))
              dynamics zeros33 in
  Build_Dynamics mass_ com_ inertia_.

(** *** matrix_to_moments, moments_to_matrix *)

Definition matrix_to_moments `{Render F} (matrix : mat3 F)
  : gmap string (pyvalue F) :=
  let '((m00, m01, m02), (_, m11, m12), (_, _, m22)) := matrix in
  {[ "ixx" := PyStr (py_str m00);
     "ixy" := PyStr (py_str m01);
     "ixz" := PyStr (py_str m02);
     "iyy" := PyStr (py_str m11);
     "iyz" := PyStr (py_str m12);
     "izz" := PyStr (py_str m22) ]}.

Definition moments_to_matrix (inertia_moments : list F) : result (mat3 F) :=
  ixx ← py_index inertia_moments 0;
  iyy ← py_index inertia_moments 1;
  izz ← py_index inertia_moments 2;
  ixy ← py_index inertia_moments 3;
  ixz ← py_index inertia_moments 4;
  iyz ← py_index inertia_moments 5;
  Ok ((ixx, ixy, ixz), (ixy, iyy, iyz), (ixz, iyz, izz)).

(** *** get_center_of_mass *)

(** The loop over the faces: it leaves the total signed volume and the sum
    of the volume-weighted centroids. *)
Definition center_of_mass_loop (mesh : Mesh F) : result (F * vec3 F) :=
  for_each
    (fun '(total_volume, center_of_mass) '(v0, v1, v2) =>
       p0 ← py_index (points mesh) v0;
       p1 ← py_index (points mesh) v1;
       p2 ← py_index (points mesh) v2;
       let volume := dot p0 (cross p1 p2) / lit_6 in
       let centroid := vdivs (vadd (vadd p0 p1) p2) lit_4 in
       Ok (total_volume + volume, vadd center_of_mass (smulv volume centroid)))
    (faces mesh) (0, zeros3).

Definition get_center_of_mass (mesh : Mesh F) : result (vec3 F) :=
  '(total_volume, center_of_mass) ← center_of_mass_loop mesh;
  Ok (vdivs center_of_mass total_volume).

(** *** scale_mesh *)

(** [scale_mesh], with the function that the name [get_center_of_mass]
    denotes at the call as a parameter.  The message of the exception is the
    template of the f-string. *)
Definition scale_mesh_with (get_com : Mesh F -> result (vec3 F))
    (mesh : Mesh F) (scale : F) (about_origin : bool) : result (Mesh F) :=
  if scale <=? 0 then
    Raise (ValueError "Scaling {scale} should be greater than 0.")
  else
    com_ ← (if about_origin then Ok (0, 0, 0) else get_com mesh);
    let points_ := map (fun p => vsub p com_) (points mesh) in
    let points_ := map (fun p => vmuls p scale) points_ in
    let points_ := map (fun p => vadd p com_) points_ in
    Ok (Build_Mesh points_ (faces mesh)).

Definition scale_mesh : Mesh F -> F -> bool -> result (Mesh F) :=
  scale_mesh_with get_center_of_mass.

(** *** apply_transform *)

Definition apply_transform (points_ : list (vec3 F)) (transform : mat4 F)
  : list (vec3 F) :=
  map (fun '(x, y, z) =>
         let '(h0, h1, h2, _) := rowmul4 (x, y, z, 1) (transpose4 transform) in
         (h0, h1, h2))
      points_.

(** *** combine_meshes *)

Definition offset_face (n : Z) (face : Z * Z * Z) : Z * Z * Z :=
  let '(v0, v1, v2) := face in ((v0 + n)%Z, (v1 + n)%Z, (v2 + n)%Z).

Definition combine_meshes (parent_mesh child_mesh : Mesh F)
    (relative_transform : pyobj F) : result (Mesh F) :=
  match relative_transform with
  | PyOther => Raise (ValueError "relative_transform must be a 4x4 numpy array")
  | PyNdarray a =>
      if bool_decide (shape a ≠ [4; 4]%nat) then
        Raise (ValueError "relative_transform must be a 4x4 numpy array")
      else
        let transformed_child_points :=
          apply_transform (points child_mesh) (mat4_of_ndarray a) in
        let combined_points := points parent_mesh ++ transformed_child_points in
        let offset_child_faces :=
          map (offset_face (Z.of_nat (length (points parent_mesh))))
              (faces child_mesh) in
        let combined_faces := faces parent_mesh ++ offset_child_faces in
        Ok (Build_Mesh combined_points combined_faces)
  end.

(** *** origin_and_rpy_to_transform *)

Definition origin_and_rpy_to_transform `{Trig F}
    (relative_origin relative_rpy : ndarray F) : result (mat4 F) :=
  if bool_decide (shape relative_origin ≠ [3%nat]) then
    Raise (ValueError "relative_origin must be a 3-element numpy array")
  else if bool_decide (shape relative_rpy ≠ [3%nat]) then
    Raise (ValueError "relative_rpy must be a 3-element numpy array")
  else
    let '(x, y, z) :=
      (entry relative_origin 0, entry relative_origin 1, entry relative_origin 2) in
    let '(roll, pitch, yaw) :=
      (entry relative_rpy 0, entry relative_rpy 1, entry relative_rpy 2) in
    let translation : mat4 F :=
      ((1, 0, 0, x),
       (0, 1, 0, y),
       (0, 0, 1, z),
       (0, 0, 0, 1)) in
    let roll : mat4 F :=
      ((1, 0, 0, 0),
       (0, fcos roll, - fsin roll, 0),
       (0, fsin roll, fcos roll, 0),
       (0, 0, 0, 1)) in
    let pitch : mat4 F :=
      ((fcos pitch, 0, fsin pitch, 0),
       (0, 1, 0, 0),
       (- fsin pitch, 0, fcos pitch, 0),
       (0, 0, 0, 1)) in
    let yaw : mat4 F :=
      ((fcos yaw, - fsin yaw, 0, 0),
       (fsin yaw, fcos yaw, 0, 0),
       (0, 0, 1, 0),
       (0, 0, 0, 1)) in
    let rpy := matmul4 yaw (matmul4 pitch roll) in
    let transform := matmul4 translation rpy in
    Ok transform.

End Geometry.

(** ** The vocabulary of the theorems *)

Section Vocabulary.
Context {F : Type} `{Arith F}.
Local Open Scope num_scope.

(** What [apply_transform] does to one point: the first three entries of
    [(x, y, z, 1) @ transform.T]. *)
Definition transform_point (transform : mat4 F) (p : vec3 F) : vec3 F :=
  let '((t00, t01, t02, t03), (t10, t11, t12, t13),
        (t20, t21, t22, t23), _) := transform in
  let '(x, y, z) := p in
  (x * t00 + y * t01 + z * t02 + 1 * t03,
   x * t10 + y * t11 + z * t12 + 1 * t13,
   x * t20 + y * t21 + z * t22 + 1 * t23).

(** The point of a mesh scaled by [scale] about [pivot]. *)
Definition scale_about (pivot : vec3 F) (scale : F) (p : vec3 F) : vec3 F :=
  vadd (vmuls (vsub p pivot) scale) pivot.

(** An argument that is an array of shape (4, 4). *)
Definition is_4x4_array (o : pyobj F) : Prop :=
  exists a, o = PyNdarray a /\ shape a = [4; 4]%nat.

End Vocabulary.

(** *** In exact arithmetic *)

Section RealVocabulary.
Local Open Scope R_scope.

(** Sums over a list: of numbers, of 3-vectors, of 3x3 matrices. *)
Definition Rsum (l : list R) : R := fold_right Rplus 0%R l.
Definition vsum (l : list (vec3 R)) : vec3 R := fold_right vadd zeros3 l.
Definition msum (l : list (mat3 R)) : mat3 R := fold_right madd zeros33 l.

(** The parallel-axis term of a body about the point [c]:
    [I + m * ((r . r) * Identity3 - r r^T)] with [r = com - c]. *)
Definition parallel_axis_term (c : vec3 R) (d : Dynamics R) : mat3 R :=
  let r := vsub (com d) c in
  madd (inertia d) (smulm (mass d) (msub (smulm (dot r r) eye3) (outer r r))).

(** The transform of an origin and three angles, entry by entry. *)
Definition rpy_transform (x y z roll pitch yaw : R) : mat4 R :=
  let '(cr, sr) := (cos roll, sin roll) in
  let '(cp, sp) := (cos pitch, sin pitch) in
  let '(cy, sy) := (cos yaw, sin yaw) in
  ((cy * cp, cy * sp * sr - sy * cr, cy * sp * cr + sy * sr, x),
   (sy * cp, sy * sp * sr + cy * cr, sy * sp * cr - cy * sr, y),
   (- sp, cp * sr, cp * cr, z),
   (0, 0, 0, 1)).

(** A rotation matrix: orthonormal, with determinant 1. *)
Definition is_rotation (m : mat3 R) : Prop :=
  matmul3 m (transpose3 m) = eye3 /\ det3 m = 1.

(** [sy] of [rotation_matrix_to_euler_angles]: [sqrt(R[0,0]^2 + R[1,0]^2)]. *)
Definition sy_of (m : mat3 R) : R :=
  let '((r00, _, _), (r10, _, _), _) := m in R_sqrt.sqrt (r00 * r00 + r10 * r10).

(** The rotation that [origin_and_rpy_to_transform] builds from three angles
    whose cosines and sines are given. *)
Definition rotation_of_cos_sin (cr sr cp sp cy sy : R) : mat3 R :=
  ((cy * cp, cy * sp * sr - sy * cr, cy * sp * cr + sy * sr),
   (sy * cp, sy * sp * sr + cy * cr, sy * sp * cr - cy * sr),
   (- sp, cp * sr, cp * cr)).

Definition two_point_bodies : list (Dynamics R) :=
  [ {| mass := 1; com := (-1, 0, 0); inertia := zeros33 |};
    {| mass := 1; com := (1, 0, 0); inertia := zeros33 |} ].

End RealVocabulary.

(** *** Sample data in binary64 *)

Section Samples.
Local Open Scope float_scope.

Definition point_body (x : float) : Dynamics float :=
  {| mass := 1; com := (x, 0, 0); inertia := zeros33 |}.

Definition triangle : Mesh float :=
  {| points := [(0, 0, 0); (1, 0, 0); (0, 1, 0)]; faces := [(0, 1, 2)%Z] |}.

Definition no_faces : Mesh float := {| points := []; faces := [] |}.

(** Two triangles on the same points with opposite windings: their signed
    volumes cancel. *)
Definition two_sided_triangle : Mesh float :=
  {| points := [(1, 0, 0); (0, 1, 0); (0, 0, 1)]%float;
     faces := [(0, 1, 2)%Z; (0, 2, 1)%Z] |}.

Definition two_points : Mesh float :=
  {| points := [(1, 0, 0); (0, 1, 0)]; faces := [] |}.

End Samples.

(** *** Vocabulary of the further properties *)

(** The indices [a[i]] accepts on an array of length n: [-n <= i < n]. *)
Definition index_in_range {A} (l : list A) (i : Z) : bool :=
  ((- Z.of_nat (length l) <=? i)%Z && (i <? Z.of_nat (length l))%Z)%bool.

(** A face all three indices of which [mesh.points[...]] accepts. *)
Definition face_in_range {F} (mesh : Mesh F) (face : Z * Z * Z) : bool :=
  let '(v0, v1, v2) := face in
  (index_in_range (points mesh) v0 && index_in_range (points mesh) v1
   && index_in_range (points mesh) v2)%bool.

(** A symmetric 3x3 matrix. *)
Definition symmetric3 {F} `{Arith F} (m : mat3 F) : Prop := transpose3 m = m.

(** A 4x4 matrix whose bottom row is (0, 0, 0, 1). *)
Definition affine4 {F} `{Arith F} (m : mat4 F) : Prop :=
  let '(_, _, _, r3) := m in r3 = (fzero, fzero, fzero, fone).

(** [(r . r) * Identity3 - r r^T], the matrix the parallel-axis step builds
    from the offset [r]. *)
Definition point_inertia (r : vec3 R) : mat3 R :=
  msub (smulm (dot r r) eye3) (outer r r).

(** The change of a sum of parallel-axis terms when the reference point moves
    from [c'] to [c], for bodies of total mass [m] and weighted sum [s]. *)
Definition steiner_shift (m : R) (s c c' : vec3 R) : mat3 R :=
  msub (smulm (Rplus (Rmult (-2) (dot s (vsub c c')))
                     (Rmult m (Rminus (dot c c) (dot c' c')))) eye3)
       (msub (msub (smulm m (msub (outer c c) (outer c' c')))
                   (outer s (vsub c c')))
             (outer (vsub c c') s)).

(** [[R^T, - R^T t], [0, 1]] for the transform [[R, t], [0, 1]]. *)
Definition rigid_inverse (m : mat4 R) : mat4 R :=
  let '((r00, r01, r02, tx), (r10, r11, r12, ty), (r20, r21, r22, tz), _) := m in
  ((r00, r10, r20, - (r00 * tx + r10 * ty + r20 * tz)),
   (r01, r11, r21, - (r01 * tx + r11 * ty + r21 * tz)),
   (r02, r12, r22, - (r02 * tx + r12 * ty + r22 * tz)),
   (0, 0, 0, 1))%R.

(** The quarter turn about the y axis: the rotation of pitch pi/2. *)
Definition quarter_pitch : mat3 R :=
  ((0, 0, 1), (0, 1, 0), (-1, 0, 0))%R.

(** One face of the first octant, seen from outside. *)
Definition octant_face : Mesh R :=
  {| points := [(1, 0, 0); (0, 1, 0); (0, 0, 1)]%R; faces := [(0, 1, 2)%Z] |}.

(** ** The module at work on binary64 numbers *)

Section Examples.
Local Open Scope float_scope.

Example combine_two_point_masses :
  combine_dynamics [point_body (-1); point_body 1]
  = {| mass := 2; com := (0, 0, 0);
       inertia := ((0, 0, 0), (0, 2, 0), (0, 0, 2)) |}.
Proof. vm_compute. reflexivity. Qed.

Example combine_no_bodies :
  combine_dynamics ([] : list (Dynamics float))
  = {| mass := 0; com := (0, 0, 0);
       inertia := ((0, 0, 0), (0, 0, 0), (0, 0, 0)) |}.
Proof. vm_compute. reflexivity. Qed.

Example combine_meshes_triangles :
  combine_meshes triangle triangle (PyNdarray (ndarray_of_mat4 eye4))
  = Ok {| points := [(0, 0, 0); (1, 0, 0); (0, 1, 0);
                     (0, 0, 0); (1, 0, 0); (0, 1, 0)];
          faces := [(0, 1, 2)%Z; (3, 4, 5)%Z] |}.
Proof. vm_compute. reflexivity. Qed.

Example scale_mesh_about_origin :
  scale_mesh two_points 2 true
  = Ok {| points := [(2, 0, 0); (0, 2, 0)]; faces := [] |}.
Proof. vm_compute. reflexivity. Qed.

Example scale_mesh_about_center_of_mass_no_faces :
  scale_mesh two_points 2 false
  = Ok {| points := [(nan, nan, nan); (nan, nan, nan)]; faces := [] |}.
Proof. vm_compute. reflexivity. Qed.

End Examples.

(** ** Facts about the error monad and indexing *)

Lemma py_index_valid {A} (l : list A) (i : Z) :
  valid_index l i -> exists a, py_index l i = Ok a.
Proof.
  unfold valid_index, py_index. intros [Hlo Hhi].
  destruct (Z.ltb_spec i 0) as [Hneg|_]; [lia|].
  destruct (Z.leb_spec 0 i) as [_|Hneg]; [|lia].
  destruct (Z.ltb_spec i (Z.of_nat (length l))) as [_|Hge]; [|lia].
  simpl. destruct (nth_error l (Z.to_nat i)) as [a|] eqn:E; [eauto|].
  apply nth_error_None in E. lia.
Qed.

Lemma py_index_not_ValueError {A} (l : list A) (i : Z) :
  is_ValueError (py_index l i) = false.
Proof.
  unfold py_index.
  destruct (_ && _)%bool; [|reflexivity].
  destruct (nth_error _ _); reflexivity.
Qed.

Lemma for_each_Ok {A S} (body : S -> A -> result S) (l : list A) :
  Forall (fun a => forall s, exists s', body s a = Ok s') l ->
  forall s, exists s', for_each body l s = Ok s'.
Proof.
  induction 1 as [|a l Ha _ IH]; intros s; simpl; [eauto|].
  destruct (Ha s) as [s' ->]. simpl. apply IH.
Qed.

Lemma for_each_not_ValueError {A S} (body : S -> A -> result S) (l : list A) :
  (forall s a, is_ValueError (body s a) = false) ->
  forall s, is_ValueError (for_each body l s) = false.
Proof.
  intros Hbody. induction l as [|a l IH]; intros s; simpl; [reflexivity|].
  specialize (Hbody s a).
  destruct (body s a) as [s'|e]; simpl; [apply IH | exact Hbody].
Qed.

Section GeometryFacts.
Context {F : Type} `{Arith F}.
Local Open Scope num_scope.

Lemma center_of_mass_loop_valid (mesh : Mesh F) :
  valid_mesh mesh -> exists s, center_of_mass_loop mesh = Ok s.
Proof.
  intros Hvalid. unfold center_of_mass_loop. apply for_each_Ok.
  eapply Forall_impl; [exact Hvalid|].
  intros [[v0 v1] v2] (H0 & H1 & H2) [tv c].
  destruct (py_index_valid _ _ H0) as [p0 ->].
  destruct (py_index_valid _ _ H1) as [p1 ->].
  destruct (py_index_valid _ _ H2) as [p2 ->].
  simpl. eauto.
Qed.

Lemma get_center_of_mass_valid (mesh : Mesh F) :
  valid_mesh mesh -> exists c, get_center_of_mass mesh = Ok c.
Proof.
  intros Hvalid. unfold get_center_of_mass.
  destruct (center_of_mass_loop_valid mesh Hvalid) as [[tv c] ->].
  simpl. eauto.
Qed.

Lemma get_center_of_mass_not_ValueError (mesh : Mesh F) :
  is_ValueError (get_center_of_mass mesh) = false.
Proof.
  unfold get_center_of_mass.
  pose proof (for_each_not_ValueError
    (fun '(total_volume, center_of_mass) '(v0, v1, v2) =>
       p0 ← py_index (points mesh) v0;
       p1 ← py_index (points mesh) v1;
       p2 ← py_index (points mesh) v2;
       let volume := dot p0 (cross p1 p2) / lit_6 in
       let centroid := vdivs (vadd (vadd p0 p1) p2) lit_4 in
       Ok (total_volume + volume, vadd center_of_mass (smulv volume centroid)))
    (faces mesh)) as Hloop.
  unfold center_of_mass_loop.
  match type of Hloop with ?P -> _ => assert (Hbody : P) end.
  { intros [tv c] [[v0 v1] v2].
    pose proof (py_index_not_ValueError (points mesh) v0) as E0.
    destruct (py_index (points mesh) v0); simpl; [|exact E0].
    pose proof (py_index_not_ValueError (points mesh) v1) as E1.
    destruct (py_index (points mesh) v1); simpl; [|exact E1].
    pose proof (py_index_not_ValueError (points mesh) v2) as E2.
    destruct (py_index (points mesh) v2); simpl; [reflexivity|exact E2]. }
  specialize (Hloop Hbody (0, zeros3)).
  destruct (for_each _ _ _) as [[tv c]|e]; simpl; [reflexivity|exact Hloop].
Qed.

Lemma apply_transform_pointwise (points_ : list (vec3 F)) (transform : mat4 F) :
  apply_transform points_ transform = map (transform_point transform) points_.
Proof.
  unfold apply_transform. apply map_ext. intros [[x y] z].
  destruct transform as [[[[[[t00 t01] t02] t03] [[[t10 t11] t12] t13]]
                          [[[t20 t21] t22] t23]] [[[t30 t31] t32] t33]].
  reflexivity.
Qed.

Lemma scale_mesh_with_unfold (get_com : Mesh F -> result (vec3 F))
    (mesh : Mesh F) (scale : F) (about_origin : bool) :
  (scale <=? 0) = false ->
  scale_mesh_with get_com mesh scale about_origin
  = pivot ← (if about_origin then Ok (0, 0, 0) else get_com mesh);
    Ok {| points := map (scale_about pivot scale) (points mesh);
          faces := faces mesh |}.
Proof.
  intros Hscale. unfold scale_mesh_with. rewrite Hscale.
  destruct (if about_origin then _ else _) as [pivot|e]; simpl; [|reflexivity].
  rewrite !map_map. reflexivity.
Qed.

End GeometryFacts.

(** ** Mesh operations *)

Section MeshTheorems.
Context {F : Type} `{Arith F}.
Local Open Scope num_scope.

Lemma combine_meshes_rejects (parent_mesh child_mesh : Mesh F) (o : pyobj F) :
  ~ is_4x4_array o ->
  combine_meshes parent_mesh child_mesh o
  = Raise (ValueError "relative_transform must be a 4x4 numpy array").
Proof.
  intros Hnot. destruct o as [a|]; simpl; [|reflexivity].
  case_bool_decide as Hshape; [reflexivity|].
  exfalso. apply Hnot. exists a. split; [reflexivity|].
  destruct (decide (shape a = [4; 4]%nat)); [assumption | contradiction].
Qed.

Lemma combine_meshes_accepts (parent_mesh child_mesh : Mesh F) (a : ndarray F) :
  shape a = [4; 4]%nat ->
  combine_meshes parent_mesh child_mesh (PyNdarray a)
  = Ok {| points := points parent_mesh
                    ++ map (transform_point (mat4_of_ndarray a)) (points child_mesh);
          faces := faces parent_mesh
                   ++ map (fun '(v0, v1, v2) =>
                             let n := Z.of_nat (length (points parent_mesh)) in
                             ((v0 + n)%Z, (v1 + n)%Z, (v2 + n)%Z))
                          (faces child_mesh) |}.
Proof.
  intros Hshape. simpl. rewrite bool_decide_eq_false_2 by (rewrite Hshape; auto).
  rewrite apply_transform_pointwise. reflexivity.
Qed.

(** C3.  [combine_meshes] raises its [ValueError] exactly when
    [relative_transform] is not an array of shape (4, 4).  Otherwise it
    returns the mesh whose points are the parent's points followed by the
    child's points, each transformed by [relative_transform], and whose faces
    are the parent's faces followed by the child's faces with
    [len(parent.points)] added to every index; the result has
    [len(parent.points) + len(child.points)] points and
    [len(parent.faces) + len(child.faces)] faces. *)
Theorem combine_meshes_spec (parent_mesh child_mesh : Mesh F)
    (relative_transform : pyobj F) :
  (raises (combine_meshes parent_mesh child_mesh relative_transform) = true
   <-> ~ is_4x4_array relative_transform)
  /\ (is_ValueError (combine_meshes parent_mesh child_mesh relative_transform)
      = raises (combine_meshes parent_mesh child_mesh relative_transform))
  /\ (forall a, relative_transform = PyNdarray a -> shape a = [4; 4]%nat ->
      exists mesh,
        combine_meshes parent_mesh child_mesh relative_transform = Ok mesh
        /\ points mesh
           = points parent_mesh
             ++ map (transform_point (mat4_of_ndarray a)) (points child_mesh)
        /\ faces mesh
           = faces parent_mesh
             ++ map (fun '(v0, v1, v2) =>
                       let n := Z.of_nat (length (points parent_mesh)) in
                       ((v0 + n)%Z, (v1 + n)%Z, (v2 + n)%Z))
                    (faces child_mesh)
        /\ length (points mesh)
           = (length (points parent_mesh) + length (points child_mesh))%nat
        /\ length (faces mesh)
           = (length (faces parent_mesh) + length (faces child_mesh))%nat).
Proof.
  split; [|split].
  - split.
    + intros Hraise (a & -> & Hshape).
      rewrite combine_meshes_accepts in Hraise by assumption. discriminate.
    + intros Hnot. rewrite combine_meshes_rejects by assumption. reflexivity.
  - destruct relative_transform as [a|]; simpl; [|reflexivity].
    case_bool_decide; reflexivity.
  - intros a -> Hshape. eexists. split; [apply combine_meshes_accepts, Hshape|].
    cbn [points faces]. rewrite !length_app, !length_map. auto.
Qed.

(** C7.  [scale_mesh] raises its [ValueError] exactly when [scale <= 0].
    Otherwise, on a mesh whose face indices are valid, it returns the mesh
    whose points are [(p - pivot) * scale + pivot], the pivot being (0, 0, 0)
    when [about_origin] is set and [get_center_of_mass(mesh)] otherwise, and
    whose faces are the faces of the input. *)
Theorem scale_mesh_spec (mesh : Mesh F) (scale : F) (about_origin : bool) :
  is_ValueError (scale_mesh mesh scale about_origin) = (scale <=? 0)
  /\ (valid_mesh mesh ->
      raises (scale_mesh mesh scale about_origin) = (scale <=? 0)
      /\ ((scale <=? 0) = false ->
          exists pivot,
            (if about_origin then pivot = (0, 0, 0)
             else get_center_of_mass mesh = Ok pivot)
            /\ scale_mesh mesh scale about_origin
               = Ok {| points := map (fun p => vadd (vmuls (vsub p pivot) scale) pivot)
                                     (points mesh);
                       faces := faces mesh |})).
Proof.
  destruct (scale <=? 0) eqn:Hscale.
  - unfold scale_mesh, scale_mesh_with. rewrite Hscale.
    split; [reflexivity|]. intros _. split; [reflexivity | discriminate].
  - unfold scale_mesh. rewrite scale_mesh_with_unfold by assumption.
    destruct about_origin.
    + split; [reflexivity|]. intros _. split; [reflexivity|].
      intros _. exists (0, 0, 0). split; reflexivity.
    + split.
      * pose proof (get_center_of_mass_not_ValueError mesh) as Hcom.
        destruct (get_center_of_mass mesh); simpl; [reflexivity | exact Hcom].
      * intros Hvalid. destruct (get_center_of_mass_valid mesh Hvalid) as [c Hc].
        rewrite Hc. split; [reflexivity|].
        intros _. exists c. split; reflexivity.
Qed.

(** C10.  For [scale > 0], [scale_mesh] with [about_origin] set returns
    the mesh scaled about (0, 0, 0) whatever the function called for the
    centre of mass would do, one that raises included: it is not evaluated,
    so meshes with zero total volume (a mesh without faces among them) are
    scaled like any other.  Without [about_origin] the result is that of the
    call followed by the scaling about the point it returns, so the call is
    evaluated and an exception it raises is the outcome. *)
Theorem scale_mesh_about_origin_skips_center_of_mass `{!ArithOrder F}
    (mesh : Mesh F) (scale : F) :
  (0 <? scale) = true ->
  (forall get_com : Mesh F -> result (vec3 F),
     scale_mesh_with get_com mesh scale true
     = Ok {| points := map (fun p => vadd (vmuls (vsub p (0, 0, 0)) scale) (0, 0, 0))
                           (points mesh);
             faces := faces mesh |})
  /\ scale_mesh mesh scale true
     = scale_mesh_with (fun _ => Raise IndexError) mesh scale true
  /\ (forall get_com : Mesh F -> result (vec3 F),
        scale_mesh_with get_com mesh scale false
        = pivot ← get_com mesh;
          Ok {| points := map (fun p => vadd (vmuls (vsub p pivot) scale) pivot)
                              (points mesh);
                faces := faces mesh |})
  /\ (forall (get_com : Mesh F -> result (vec3 F)) (e : exn),
        get_com mesh = Raise e ->
        scale_mesh_with get_com mesh scale false = Raise e).
Proof.
  intros Hpos. apply fltb_fleb_zero in Hpos.
  assert (Htrue : forall get_com,
            scale_mesh_with get_com mesh scale true
            = Ok {| points := map (scale_about (0, 0, 0) scale) (points mesh);
                    faces := faces mesh |}).
  { intros get_com. rewrite scale_mesh_with_unfold by assumption. reflexivity. }
  split; [|split; [|split]].
  - exact Htrue.
  - unfold scale_mesh. rewrite !Htrue. reflexivity.
  - intros get_com. rewrite scale_mesh_with_unfold by assumption. reflexivity.
  - intros get_com e He. rewrite scale_mesh_with_unfold by assumption.
    rewrite He. reflexivity.
Qed.

End MeshTheorems.

(** ** The order of the two instances *)

#[global] Instance R_arith_order : ArithOrder R.
Proof.
  constructor. intros x. simpl.
  rewrite bool_decide_eq_true, bool_decide_eq_false. lra.
Qed.

Lemma Prim2SF_zero : Prim2SF 0%float = S754_zero false.
Proof. reflexivity. Qed.

Lemma float_ltb_leb_zero (x : float) :
  (0 <? x)%float = true -> (x <=? 0)%float = false.
Proof.
  rewrite FloatAxioms.ltb_spec, FloatAxioms.leb_spec, Prim2SF_zero.
  unfold SFltb, SFleb.
  destruct (Prim2SF x) as [s| [|] | |[|] m e]; simpl; congruence.
Qed.

#[global] Instance float_arith_order : ArithOrder float.
Proof. constructor. exact float_ltb_leb_zero. Qed.

Lemma scale_mesh_about_origin_witness :
  (forall get_com : Mesh float -> result (vec3 float),
     scale_mesh_with get_com two_points 2%float true
     = Ok {| points := [(2, 0, 0); (0, 2, 0)]%float; faces := [] |})
  /\ scale_mesh_with (fun _ => Raise IndexError) two_points 2%float false
     = Raise IndexError.
Proof.
  assert (Hpos : (0 <? 2)%float = true) by reflexivity.
  pose proof (scale_mesh_about_origin_skips_center_of_mass
                (F := float) two_points 2%float Hpos)
    as (Htrue & _ & _ & Hfalse).
  split.
  - exact Htrue.
  - exact (Hfalse (fun _ => Raise IndexError) IndexError eq_refl).
Defined.

(** ** Division by a zero total volume, in binary64 *)

Lemma float_eqb_zero (z : float) :
  (z =? 0)%float = true -> exists s, Prim2SF z = S754_zero s.
Proof.
  rewrite FloatAxioms.eqb_spec, Prim2SF_zero. unfold SFeqb.
  destruct (Prim2SF z) as [s| [|] | |[|] m e]; simpl; try discriminate.
  eauto.
Qed.

Lemma is_nan_Prim2SF (x : float) :
  Prim2SF x = S754_nan -> is_nan x = true.
Proof.
  intros E. unfold is_nan. rewrite FloatAxioms.eqb_spec, E. reflexivity.
Qed.

Lemma is_infinity_Prim2SF (x : float) (s : bool) :
  Prim2SF x = S754_infinity s -> is_infinity x = true.
Proof.
  intros E. unfold is_infinity. rewrite FloatAxioms.eqb_spec, FloatAxioms.abs_spec, E. reflexivity.
Qed.

(** A quotient by zero (of either sign) is NaN or an infinity, whatever the
    numerator. *)
Lemma div_zero_non_finite (c z : float) :
  (z =? 0)%float = true -> non_finite (c / z)%float = true.
Proof.
  intros Hz. destruct (float_eqb_zero z Hz) as [s Hs].
  pose proof (FloatAxioms.div_spec c z) as Hdiv. rewrite Hs in Hdiv.
  unfold non_finite. apply orb_true_iff.
  destruct (Prim2SF c) as [sc| sc | |sc m e] eqn:Ec;
    unfold SF64div, SFdiv in Hdiv; simpl in Hdiv.
  - left. apply is_nan_Prim2SF, Hdiv.
  - right. eapply is_infinity_Prim2SF, Hdiv.
  - left. apply is_nan_Prim2SF, Hdiv.
  - right. eapply is_infinity_Prim2SF, Hdiv.
Qed.

Example get_center_of_mass_two_sided_triangle :
  center_of_mass_loop two_sided_triangle = Ok (0%float, (0, 0, 0)%float)
  /\ get_center_of_mass two_sided_triangle = Ok (nan, nan, nan).
Proof. split; vm_compute; reflexivity. Qed.

(** C2, amended to what the code does.  When the signed volumes of a mesh sum to
    zero, [get_center_of_mass] raises nothing: it returns the three quotients
    of the weighted centroid sum by the zero total, each of them NaN or an
    infinity. *)
Theorem get_center_of_mass_zero_volume (mesh : Mesh float)
    (total_volume : float) (center_of_mass : vec3 float) :
  center_of_mass_loop mesh = Ok (total_volume, center_of_mass) ->
  (total_volume =? 0)%float = true ->
  raises (get_center_of_mass mesh) = false
  /\ exists x y z,
       get_center_of_mass mesh = Ok (x, y, z)
       /\ (x, y, z) = vdivs center_of_mass total_volume
       /\ non_finite x = true /\ non_finite y = true /\ non_finite z = true.
Proof.
  intros Hloop Hzero. unfold get_center_of_mass. rewrite Hloop. simpl.
  split; [reflexivity|].
  destruct center_of_mass as [[c0 c1] c2].
  exists (c0 / total_volume)%float, (c1 / total_volume)%float,
         (c2 / total_volume)%float.
  repeat split; apply div_zero_non_finite; assumption.
Qed.

Lemma get_center_of_mass_zero_volume_witness :
  raises (get_center_of_mass no_faces) = false
  /\ exists x y z,
       get_center_of_mass no_faces = Ok (x, y, z)
       /\ (x, y, z) = vdivs (0, 0, 0)%float 0%float
       /\ non_finite x = true /\ non_finite y = true /\ non_finite z = true.
Proof.
  apply (get_center_of_mass_zero_volume no_faces 0%float (0, 0, 0)%float);
    reflexivity.
Defined.

(** Counterexample to C2 as the spec words it (an explicit error): on a
    mesh without faces the call raises nothing and returns three NaN. *)
Lemma get_center_of_mass_no_faces_returns_nan :
  raises (get_center_of_mass no_faces) = false
  /\ get_center_of_mass no_faces = Ok (nan, nan, nan).
Proof. split; vm_compute; reflexivity. Qed.

(** ** Inertia tensors and Euler angles *)

Section InertiaTheorems.
Context {F : Type} `{Arith F}.
Local Open Scope num_scope.

Lemma reshape33_flatten3 (m : mat3 F) : reshape33 (flatten3 m) = Ok m.
Proof. destruct m as [[[[a b] c] [[d e] f]] [[g h] i]]. reflexivity. Qed.

Lemma reshape33_length (l : list F) :
  length l = 9%nat -> exists m, flatten3 m = l /\ reshape33 l = Ok m.
Proof.
  intros Hlen.
  do 9 (destruct l as [|? l]; [discriminate|]).
  destruct l; [|discriminate].
  eexists ((_, _, _), (_, _, _), (_, _, _)). split; reflexivity.
Qed.

(** C8.  [transform_inertia_tensor(I, R)] returns [R.T @ I @ R], for [I]
    given as a 3x3 matrix and for [I] given as the list of its 9 entries. *)
Theorem transform_inertia_tensor_spec (rotation : mat3 F) :
  (forall inertia_matrix : mat3 F,
     transform_inertia_tensor (InertiaMatrix inertia_matrix) rotation
     = Ok (matmul3 (matmul3 (transpose3 rotation) inertia_matrix) rotation)
     /\ transform_inertia_tensor (InertiaList (flatten3 inertia_matrix)) rotation
        = Ok (matmul3 (matmul3 (transpose3 rotation) inertia_matrix) rotation))
  /\ (forall l : list F, length l = 9%nat ->
      exists inertia_matrix,
        flatten3 inertia_matrix = l
        /\ transform_inertia_tensor (InertiaList l) rotation
           = Ok (matmul3 (matmul3 (transpose3 rotation) inertia_matrix) rotation)).
Proof.
  split.
  - intros m. split; [reflexivity|].
    unfold transform_inertia_tensor. rewrite reshape33_flatten3. reflexivity.
  - intros l Hlen. destruct (reshape33_length l Hlen) as (m & Hflat & Hm).
    exists m. split; [exact Hflat|].
    unfold transform_inertia_tensor. rewrite Hm. reflexivity.
Qed.

(** C9, amended to what the code does.  [matrix_to_moments(I)] is the dict with the
    keys ixx, ixy, ixz, iyy, iyz, izz and no other, holding the strings
    [str(I[0,0])], [str(I[0,1])], [str(I[0,2])], [str(I[1,1])],
    [str(I[1,2])], [str(I[2,2])]. *)
Theorem matrix_to_moments_spec `{Render F} (m00 m01 m02 m10 m11 m12 m20 m21 m22 : F) :
  let moments :=
    matrix_to_moments ((m00, m01, m02), (m10, m11, m12), (m20, m21, m22)) in
  moments !! "ixx" = Some (PyStr (py_str m00))
  /\ moments !! "ixy" = Some (PyStr (py_str m01))
  /\ moments !! "ixz" = Some (PyStr (py_str m02))
  /\ moments !! "iyy" = Some (PyStr (py_str m11))
  /\ moments !! "iyz" = Some (PyStr (py_str m12))
  /\ moments !! "izz" = Some (PyStr (py_str m22))
  /\ dom moments = ({[ "ixx"; "ixy"; "ixz"; "iyy"; "iyz"; "izz" ]} : gset string).
Proof.
  simpl.
  repeat split;
    first [ by simplify_map_eq
          | rewrite !dom_insert_L, dom_singleton_L; set_solver ].
Qed.

(** C4.  With [sy = sqrt(R[0,0]^2 + R[1,0]^2)]:
    when [sy < 1e-6], the angles are [atan2(-R[1,2], R[1,1])],
    [atan2(-R[2,0], sy)] and 0; otherwise they are [atan2(R[2,1], R[2,2])],
    [atan2(-R[2,0], sy)] and [atan2(R[1,0], R[0,0])]. *)
Theorem rotation_matrix_to_euler_angles_spec `{Trig F}
    (r00 r01 r02 r10 r11 r12 r20 r21 r22 : F) :
  let rotation_matrix := ((r00, r01, r02), (r10, r11, r12), (r20, r21, r22)) in
  let sy := fsqrt (r00 * r00 + r10 * r10) in
  ((sy <? lit_1em6) = true ->
   rotation_matrix_to_euler_angles rotation_matrix
   = (fatan2 (- r12) r11, fatan2 (- r20) sy, 0))
  /\ ((sy <? lit_1em6) = false ->
      rotation_matrix_to_euler_angles rotation_matrix
      = (fatan2 r21 r22, fatan2 (- r20) sy, fatan2 r10 r00)).
Proof.
  intros rotation_matrix sy. unfold rotation_matrix_to_euler_angles; simpl.
  fold sy. split; intros ->; reflexivity.
Qed.

End InertiaTheorems.

(** Counterexample to C9 as the spec words it (the values are the
    entries): on the identity matrix, whatever [str] is, the value under ixx
    is a string and not the number 1.0. *)
Lemma matrix_to_moments_holds_strings :
  ~ exists render : Render float,
      @matrix_to_moments float render eye3 !! "ixx" = Some (PyFloat 1%float).
Proof.
  intros [render Hlookup]. unfold matrix_to_moments, eye3 in Hlookup.
  simplify_map_eq.
Qed.

(** ** combine_dynamics in exact arithmetic *)

Ltac destruct_vecs :=
  repeat match goal with
         | v : vec3 R |- _ => destruct v as [[? ?] ?]
         | m : mat3 R |- _ => destruct m as [[? ?] ?]
         | d : Dynamics R |- _ => destruct d as [? ? ?]
         end.

Ltac vec_ring :=
  destruct_vecs;
  cbv [vadd vsub vmuls smulv vdivs dot cross outer madd msub smulm mmuls
       zeros3 zeros33 eye3 parallel_axis_term mass com inertia
       fadd fsub fmul fdiv fzero fone R_arith];
  repeat match goal with
         | |- (_, _) = (_, _) => apply (f_equal2 pair)
         | |- Build_Dynamics _ _ _ = Build_Dynamics _ _ _ => f_equal
         end;
  try ring.

Section DynamicsTheorems.
Local Open Scope R_scope.

Lemma vadd_assoc (a b c : vec3 R) : vadd (vadd a b) c = vadd a (vadd b c).
Proof. vec_ring. Qed.

Lemma vadd_zeros3_l (a : vec3 R) : vadd zeros3 a = a.
Proof. vec_ring. Qed.

Lemma madd_zeros33_l (a : mat3 R) : madd zeros33 a = a.
Proof. vec_ring. Qed.

Lemma vmuls_smulv (a : vec3 R) (s : R) : vmuls a s = smulv s a.
Proof. vec_ring. Qed.

Lemma smulv_zero (a : vec3 R) : smulv 0 a = zeros3.
Proof. vec_ring. Qed.

Lemma parallel_axis_step (acc : mat3 R) (c : vec3 R) (d : Dynamics R) :
  madd (madd acc (inertia d))
       (mmuls (msub (smulm (dot (vsub (com d) c) (vsub (com d) c)) eye3)
                    (outer (vsub (com d) c) (vsub (com d) c)))
              (mass d))
  = madd acc (parallel_axis_term c d).
Proof. vec_ring. Qed.

Lemma madd_assoc (a b c : mat3 R) : madd (madd a b) c = madd a (madd b c).
Proof. vec_ring. Qed.

(** The first loop: the running mass and the running weighted sum. *)
Lemma mass_com_loop (dynamics : list (Dynamics R)) (m0 : R) (c0 : vec3 R) :
  fold_left (fun '(mass_, com_) dynamic =>
               (fadd mass_ (mass dynamic),
                vadd com_ (vmuls (com dynamic) (mass dynamic))))
            dynamics (m0, c0)
  = (m0 + Rsum (map mass dynamics),
     vadd c0 (vsum (map (fun d => smulv (mass d) (com d)) dynamics))).
Proof.
  revert m0 c0. induction dynamics as [|d ds IH]; intros m0 c0; simpl.
  - f_equal; [ring | vec_ring].
  - rewrite IH. rewrite vmuls_smulv, vadd_assoc. f_equal. simpl. ring.
Qed.

(** The second loop: the running inertia. *)
Lemma inertia_loop (dynamics : list (Dynamics R)) (c : vec3 R) (i0 : mat3 R) :
  fold_left (fun inertia_ dynamic =>
               let r := vsub (com dynamic) c in
               madd (madd inertia_ (inertia dynamic))
                    (mmuls (msub (smulm (dot r r) eye3) (outer r r))
                           (mass dynamic)))
            dynamics i0
  = madd i0 (msum (map (parallel_axis_term c) dynamics)).
Proof.
  revert i0. induction dynamics as [|d ds IH]; intros i0.
  - simpl. vec_ring.
  - cbn [fold_left map]. rewrite IH. cbv zeta.
    rewrite parallel_axis_step, madd_assoc. reflexivity.
Qed.

Lemma Rsum_nonneg (l : list R) : Forall (fun x => 0 <= x) l -> 0 <= Rsum l.
Proof. induction 1; simpl; lra. Qed.

(** Masses that are not negative and do not sum above zero are all zero,
    and so is the weighted sum. *)
Lemma weighted_sum_zero (dynamics : list (Dynamics R)) :
  Forall (fun d => 0 <= mass d) dynamics ->
  ~ 0 < Rsum (map mass dynamics) ->
  vsum (map (fun d => smulv (mass d) (com d)) dynamics) = zeros3.
Proof.
  induction 1 as [|d ds Hd Hds IH]; simpl; intros Hsum; [reflexivity|].
  assert (0 <= Rsum (map mass ds)) by (apply Rsum_nonneg, Forall_map, Hds).
  assert (mass d = 0) as -> by lra.
  rewrite smulv_zero, vadd_zeros3_l. apply IH. lra.
Qed.

(** The record [combine_dynamics] returns, loop by loop. *)
Lemma combine_dynamics_unfold (dynamics : list (Dynamics R)) :
  let total := Rsum (map mass dynamics) in
  let weighted := vsum (map (fun d => smulv (mass d) (com d)) dynamics) in
  let c := if decide (0 < total) then vdivs weighted total else weighted in
  combine_dynamics dynamics
  = {| mass := total; com := c;
       inertia := msum (map (parallel_axis_term c) dynamics) |}.
Proof.
  intros total weighted c. unfold combine_dynamics.
  rewrite mass_com_loop. rewrite inertia_loop.
  replace (fzero + Rsum (map mass dynamics)) with total
    by (unfold total; simpl; ring).
  rewrite vadd_zeros3_l. fold weighted.
  replace (if (fzero <? total)%num then vdivs weighted total else weighted)
    with c.
  - rewrite madd_zeros33_l. reflexivity.
  - unfold c. simpl. destruct (decide (0 < total)) as [Hpos|Hneg].
    + rewrite bool_decide_eq_true_2 by assumption. reflexivity.
    + rewrite bool_decide_eq_false_2 by assumption. reflexivity.
Qed.

(** Without the division, the centre of mass is the weighted sum itself:
    this is what the code returns when the total mass is not positive,
    whatever the signs of the masses. *)
Lemma combine_dynamics_com_not_positive (dynamics : list (Dynamics R)) :
  ~ 0 < Rsum (map mass dynamics) ->
  com (combine_dynamics dynamics)
  = vsum (map (fun d => smulv (mass d) (com d)) dynamics).
Proof.
  intros Hneg. rewrite combine_dynamics_unfold. cbn [com].
  destruct (decide (0 < Rsum (map mass dynamics))); [contradiction | reflexivity].
Qed.

(** C1.  For bodies with masses that are not negative, in exact
    arithmetic: the mass of the result is the sum of the masses; its centre
    of mass is the mass-weighted average of the centres of mass when the
    total mass is positive and the zero vector otherwise; its inertia is the
    sum over the bodies of [I_i + mass_i * ((r_i . r_i) * Identity3 - r_i r_i^T)]
    with [r_i = com_i - combinedCOM]; and the empty list gives mass 0, the
    origin and the zero matrix.  The function is total: it raises nothing. *)
Theorem combine_dynamics_spec (dynamics : list (Dynamics R)) :
  Forall (fun d => 0 <= mass d) dynamics ->
  let combined := combine_dynamics dynamics in
  let total := Rsum (map mass dynamics) in
  mass combined = total
  /\ (0 < total ->
      com combined
      = vdivs (vsum (map (fun d => smulv (mass d) (com d)) dynamics)) total)
  /\ (~ 0 < total -> com combined = (0, 0, 0))
  /\ inertia combined
     = msum (map (parallel_axis_term (com combined)) dynamics)
  /\ combine_dynamics [] = {| mass := 0; com := (0, 0, 0);
                              inertia := ((0, 0, 0), (0, 0, 0), (0, 0, 0)) |}.
Proof.
  intros Hmass combined total. subst combined.
  rewrite combine_dynamics_unfold. fold total. cbn [mass com inertia].
  split; [reflexivity|]. split; [|split; [|split]].
  - intros Hpos. destruct (decide (0 < total)); [reflexivity | contradiction].
  - intros Hneg. destruct (decide (0 < total)); [contradiction|].
    apply weighted_sum_zero; assumption.
  - reflexivity.
  - rewrite (combine_dynamics_unfold []). simpl.
    destruct (decide (0 < 0)) as [Hlt|_]; [lra | reflexivity].
Qed.

Lemma combine_dynamics_spec_witness :
  mass (combine_dynamics two_point_bodies) = Rsum (map mass two_point_bodies).
Proof.
  apply (combine_dynamics_spec two_point_bodies).
  repeat constructor; simpl; lra.
Defined.

End DynamicsTheorems.

(** ** Homogeneous transforms in exact arithmetic *)

Ltac destruct_mat4 m :=
  destruct m as [[[[[[?m00 ?m01] ?m02] ?m03] [[[?m10 ?m11] ?m12] ?m13]]
                   [[[?m20 ?m21] ?m22] ?m23]] [[[?m30 ?m31] ?m32] ?m33]].

Ltac unfold_mat4 :=
  cbv [matmul4 rowmul4 transpose4 dot4 eye4 adjugate4 cofactor4 minor4 drop4
       det4 det3 mat4_divs vec4_divs Nat.even Nat.add
       fadd fsub fmul fdiv fneg fzero fone R_arith].

Ltac mat4_entries :=
  repeat match goal with
         | |- (_, _) = (_, _) => apply (f_equal2 pair)
         end.

Section TransformTheorems.
Local Open Scope R_scope.

(** The transposed cofactors times the matrix: the determinant on the
    diagonal. *)
Lemma adjugate4_matmul4 (m : mat4 R) :
  matmul4 (adjugate4 m) m
  = ((det4 m, 0, 0, 0), (0, det4 m, 0, 0), (0, 0, det4 m, 0), (0, 0, 0, det4 m)).
Proof. destruct_mat4 m. unfold_mat4. mat4_entries; ring. Qed.

Lemma matmul4_adjugate4 (m : mat4 R) :
  matmul4 m (adjugate4 m)
  = ((det4 m, 0, 0, 0), (0, det4 m, 0, 0), (0, 0, det4 m, 0), (0, 0, 0, det4 m)).
Proof. destruct_mat4 m. unfold_mat4. mat4_entries; ring. Qed.

Lemma matmul4_divs_l (a m : mat4 R) (d : R) :
  matmul4 (mat4_divs a d) m = mat4_divs (matmul4 a m) d.
Proof.
  destruct_mat4 a. destruct_mat4 m. unfold_mat4. unfold Rdiv.
  mat4_entries; ring.
Qed.

Lemma matmul4_divs_r (a m : mat4 R) (d : R) :
  matmul4 m (mat4_divs a d) = mat4_divs (matmul4 m a) d.
Proof.
  destruct_mat4 a. destruct_mat4 m. unfold_mat4. unfold Rdiv.
  mat4_entries; ring.
Qed.

Lemma diag4_divs (d : R) :
  d <> 0 ->
  mat4_divs ((d, 0, 0, 0), (0, d, 0, 0), (0, 0, d, 0), (0, 0, 0, d)) d = eye4.
Proof. intros Hd. unfold_mat4. mat4_entries; field; assumption. Qed.

(** [np.linalg.inv] on a matrix with a determinant other than zero returns
    a two-sided inverse. *)
Lemma linalg_inv_inverse (m : mat4 R) :
  det4 m <> 0 ->
  exists mi, linalg_inv m = Ok mi /\ matmul4 mi m = eye4 /\ matmul4 m mi = eye4.
Proof.
  intros Hdet. unfold linalg_inv.
  change (det4 m =? 0)%num with (bool_decide (det4 m = 0)).
  rewrite bool_decide_eq_false_2 by assumption.
  eexists. split; [reflexivity|]. split.
  - rewrite matmul4_divs_l, adjugate4_matmul4. apply diag4_divs, Hdet.
  - rewrite matmul4_divs_r, matmul4_adjugate4. apply diag4_divs, Hdet.
Qed.

Lemma origin_and_rpy_to_transform_entries (x y z roll pitch yaw : R) :
  origin_and_rpy_to_transform (array1 [x; y; z]) (array1 [roll; pitch; yaw])
  = Ok (rpy_transform x y z roll pitch yaw).
Proof.
  unfold origin_and_rpy_to_transform, array1. cbn [shape data length].
  rewrite !bool_decide_eq_false_2 by (intros Hne; apply Hne; reflexivity).
  cbv [entry nth data]. f_equal. unfold rpy_transform.
  unfold_mat4. cbv [fsin fcos R_trig]. mat4_entries; ring.
Qed.

Lemma det4_rpy_transform (x y z roll pitch yaw : R) :
  det4 (rpy_transform x y z roll pitch yaw) = 1.
Proof.
  pose proof (sin2_cos2 roll) as Hr.
  pose proof (sin2_cos2 pitch) as Hp.
  pose proof (sin2_cos2 yaw) as Hy.
  unfold Rsqr in Hr, Hp, Hy. unfold rpy_transform. unfold_mat4.
  transitivity ((sin roll * sin roll + cos roll * cos roll)
                * (sin pitch * sin pitch + cos pitch * cos pitch)
                * (sin yaw * sin yaw + cos yaw * cos yaw)); [ring|].
  rewrite Hr, Hp, Hy. ring.
Qed.

(** C6.  For every origin (x, y, z) and all angles (roll, pitch, yaw), in
    exact arithmetic: [origin_and_rpy_to_transform] returns a transform,
    [inv_tf] returns its inverse without raising, and the inverse times the
    transform is the 4x4 identity (and so is the transform times the
    inverse). *)
Theorem inv_tf_origin_and_rpy_to_transform (x y z roll pitch yaw : R) :
  exists transform inverse,
    origin_and_rpy_to_transform (array1 [x; y; z]) (array1 [roll; pitch; yaw])
    = Ok transform
    /\ inv_tf transform = Ok inverse
    /\ matmul4 inverse transform = eye4
    /\ matmul4 transform inverse = eye4.
Proof.
  destruct (linalg_inv_inverse (rpy_transform x y z roll pitch yaw))
    as (inverse & Hinv & Hleft & Hright).
  { rewrite det4_rpy_transform. lra. }
  exists (rpy_transform x y z roll pitch yaw), inverse.
  split; [apply origin_and_rpy_to_transform_entries|]. auto.
Qed.

End TransformTheorems.

(** ** The Euler angles of a rotation, in exact arithmetic *)

Section EulerTheorems.
Local Open Scope R_scope.
Local Abbreviation sqrt := R_sqrt.sqrt.

Lemma hypot_pos (x y : R) : x <> 0 \/ y <> 0 -> 0 < sqrt (x * x + y * y).
Proof. intros Hxy. apply sqrt_lt_R0. nra. Qed.

Lemma sqrt_atan_pos (x y : R) :
  0 < x -> sqrt (1 + (y / x)²) = sqrt (x * x + y * y) / x.
Proof.
  intros Hx. pose proof (hypot_pos x y ltac:(left; lra)) as Hh.
  apply sqrt_lem_1.
  - unfold Rsqr. nra.
  - apply Rlt_le, Rdiv_lt_0_compat; assumption.
  - unfold Rsqr.
    replace (sqrt (x * x + y * y) / x * (sqrt (x * x + y * y) / x))
      with (sqrt (x * x + y * y) * sqrt (x * x + y * y) / (x * x))
      by (field; lra).
    rewrite sqrt_sqrt by nra. field. lra.
Qed.

Lemma sqrt_atan_neg (x y : R) :
  x < 0 -> sqrt (1 + (y / x)²) = sqrt (x * x + y * y) / - x.
Proof.
  intros Hx. pose proof (hypot_pos x y ltac:(left; lra)) as Hh.
  apply sqrt_lem_1.
  - unfold Rsqr. nra.
  - apply Rlt_le, Rdiv_lt_0_compat; lra.
  - unfold Rsqr.
    replace (sqrt (x * x + y * y) / - x * (sqrt (x * x + y * y) / - x))
      with (sqrt (x * x + y * y) * sqrt (x * x + y * y) / (x * x))
      by (field; lra).
    rewrite sqrt_sqrt by nra. field. lra.
Qed.

(** [atan2(y, x)] is the angle of the point (x, y): its cosine and sine
    are x and y over the distance to the origin. *)
Lemma Ratan2_cos_sin (y x : R) :
  x <> 0 \/ y <> 0 ->
  cos (Ratan2 y x) = x / sqrt (x * x + y * y)
  /\ sin (Ratan2 y x) = y / sqrt (x * x + y * y).
Proof.
  intros Hxy. pose proof (hypot_pos x y Hxy) as Hh.
  unfold Ratan2.
  destruct (decide (0 < x)) as [Hpos|Hnpos].
  - rewrite cos_atan, sin_atan, sqrt_atan_pos by assumption.
    split; field; lra.
  - destruct (decide (x < 0)) as [Hneg|Hnneg].
    + destruct (decide (0 <= y)).
      * rewrite neg_cos, neg_sin, cos_atan, sin_atan, sqrt_atan_neg by assumption.
        split; field; lra.
      * replace (atan (y / x) - PI) with (- (- atan (y / x) + PI)) by ring.
        rewrite cos_neg, sin_neg, neg_cos, neg_sin, cos_neg, sin_neg.
        rewrite cos_atan, sin_atan, sqrt_atan_neg by assumption.
        split; field; lra.
    + assert (x = 0) as -> by lra.
      replace (0 * 0 + y * y) with (y * y) in * by ring.
      destruct (decide (0 < y)) as [Hy|Hny].
      * rewrite cos_PI2, sin_PI2, sqrt_square by lra. split; field; lra.
      * destruct (decide (y < 0)) as [Hy|Hny']; [|destruct Hxy; lra].
        replace (- PI / 2) with (- (PI / 2)) by field.
        rewrite cos_neg, sin_neg, cos_PI2, sin_PI2.
        replace (y * y) with (- y * - y) by ring.
        rewrite sqrt_square by lra. split; field; lra.
Qed.

Lemma rotation_block_rpy_transform (x y z roll pitch yaw : R) :
  rotation_block (rpy_transform x y z roll pitch yaw)
  = rotation_of_cos_sin (cos roll) (sin roll) (cos pitch) (sin pitch)
                        (cos yaw) (sin yaw).
Proof. reflexivity. Qed.

(** The algebra of the round trip: with [s = sy > 0], the cosines and sines
    that [atan2] gives rebuild the rotation matrix. *)
Lemma rotation_of_cos_sin_rebuilds (r00 r01 r02 r10 r11 r12 r20 r21 r22 s : R)
    (cr sr cy sy : R) :
  is_rotation ((r00, r01, r02), (r10, r11, r12), (r20, r21, r22)) ->
  s <> 0 ->
  s * s = r00 * r00 + r10 * r10 ->
  cr * s = r22 -> sr * s = r21 -> cy * s = r00 -> sy * s = r10 ->
  rotation_of_cos_sin cr sr s (- r20) cy sy
  = ((r00, r01, r02), (r10, r11, r12), (r20, r21, r22)).
Proof.
  intros [Horth Hdet] Hs Hss Hcr Hsr Hcy Hsy.
  cbv [matmul3 rowmul3 transpose3 dot eye3 fadd fmul fzero fone R_arith]
    in Horth.
  cbv [det3 fadd fsub fmul R_arith] in Hdet.
  injection Horth as H00 H01 H02 H10 H11 H12 H20 H21 H22.
  assert (Hss' : s * s <> 0) by nra.
  unfold rotation_of_cos_sin.
  repeat match goal with
         | |- (_, _) = (_, _) => apply (f_equal2 pair)
         end.
  - rewrite <- Hcy. ring.
  - apply (Rmult_eq_reg_r (s * s)); [|assumption].
    transitivity (cy * s * - r20 * (sr * s) - sy * s * (cr * s)); [ring|].
    rewrite Hcy, Hsr, Hsy, Hcr, Hss. nsatz.
  - apply (Rmult_eq_reg_r (s * s)); [|assumption].
    transitivity (cy * s * - r20 * (cr * s) + sy * s * (sr * s)); [ring|].
    rewrite Hcy, Hsr, Hsy, Hcr, Hss. nsatz.
  - rewrite <- Hsy. ring.
  - apply (Rmult_eq_reg_r (s * s)); [|assumption].
    transitivity (sy * s * - r20 * (sr * s) + cy * s * (cr * s)); [ring|].
    rewrite Hcy, Hsr, Hsy, Hcr, Hss. nsatz.
  - apply (Rmult_eq_reg_r (s * s)); [|assumption].
    transitivity (sy * s * - r20 * (cr * s) - cy * s * (sr * s)); [ring|].
    rewrite Hcy, Hsr, Hsy, Hcr, Hss. nsatz.
  - ring.
  - rewrite <- Hsr. ring.
  - rewrite <- Hcr. ring.
Qed.

(** C5.  For every rotation matrix R (orthonormal, determinant 1) with
    [sy >= 1e-6], in exact arithmetic: the angles that
    [rotation_matrix_to_euler_angles(R)] returns, given to
    [origin_and_rpy_to_transform] with the origin (0, 0, 0), produce a
    transform whose rotation block is R. *)
Theorem euler_angles_round_trip (rotation_matrix : mat3 R) :
  is_rotation rotation_matrix ->
  1 / 1000000 <= sy_of rotation_matrix ->
  let '(roll, pitch, yaw) := rotation_matrix_to_euler_angles rotation_matrix in
  exists transform,
    origin_and_rpy_to_transform (array1 [0; 0; 0]) (array1 [roll; pitch; yaw])
    = Ok transform
    /\ rotation_block transform = rotation_matrix.
Proof.
  destruct rotation_matrix as [[[[r00 r01] r02] [[r10 r11] r12]] [[r20 r21] r22]].
  intros Hrot Hsy. unfold sy_of in Hsy.
  set (s := sqrt (r00 * r00 + r10 * r10)) in *.
  unfold rotation_matrix_to_euler_angles.
  change (fsqrt (r00 * r00 + r10 * r10)%num) with s.
  change (s <? lit_1em6)%num with (bool_decide (s < 1 / 1000000)).
  rewrite bool_decide_eq_false_2 by lra.
  change (fatan2 r21 r22, fatan2 (- r20)%num s, fatan2 r10 r00)
    with (Ratan2 r21 r22, Ratan2 (- r20) s, Ratan2 r10 r00).
  eexists. split; [apply origin_and_rpy_to_transform_entries|].
  rewrite rotation_block_rpy_transform. cbv [fatan2 R_trig fneg R_arith].
  (* what orthonormality gives *)
  assert (Hss : s * s = r00 * r00 + r10 * r10) by (apply sqrt_sqrt; nra).
  assert (Hs : 0 < s) by lra.
  pose proof Hrot as [Horth Hdet].
  cbv [matmul3 rowmul3 transpose3 dot eye3 fadd fmul fzero fone R_arith]
    in Horth.
  cbv [det3 fadd fsub fmul R_arith] in Hdet.
  injection Horth as H00 H01 H02 H10 H11 H12 H20 H21 H22.
  assert (Hcol : r00 * r00 + r10 * r10 + r20 * r20 = 1) by nsatz.
  assert (Hrow : r22 * r22 + r21 * r21 = r00 * r00 + r10 * r10) by nsatz.
  (* the three angles *)
  destruct (Ratan2_cos_sin (- r20) s ltac:(left; lra)) as [Hcp Hsp].
  replace (s * s + - r20 * - r20) with 1 in Hcp, Hsp by lra.
  rewrite sqrt_1 in Hcp, Hsp.
  destruct (Ratan2_cos_sin r10 r00) as [Hcy Hsyaw].
  { destruct (Req_dec r00 0) as [E0|]; [|left; assumption].
    right. intros E1. nra. }
  fold s in Hcy, Hsyaw.
  destruct (Ratan2_cos_sin r21 r22) as [Hcr Hsr].
  { destruct (Req_dec r22 0) as [E0|]; [|left; assumption].
    right. intros E1. nra. }
  rewrite Hrow in Hcr, Hsr. fold s in Hcr, Hsr.
  replace (cos (Ratan2 (- r20) s)) with s by (rewrite Hcp; field).
  replace (sin (Ratan2 (- r20) s)) with (- r20) by (rewrite Hsp; field).
  apply rotation_of_cos_sin_rebuilds; try assumption.
  - lra.
  - rewrite Hcr. field. lra.
  - rewrite Hsr. field. lra.
  - rewrite Hcy. field. lra.
  - rewrite Hsyaw. field. lra.
Qed.

Lemma eye3_is_rotation : is_rotation eye3.
Proof.
  split.
  - cbv [matmul3 rowmul3 transpose3 dot eye3 fadd fmul fzero fone R_arith].
    repeat match goal with
           | |- (_, _) = (_, _) => apply (f_equal2 pair)
           end; ring.
  - cbv [det3 eye3 fadd fsub fmul fzero fone R_arith]. ring.
Qed.

Lemma eye3_sy : sy_of eye3 = 1.
Proof.
  cbv [sy_of eye3 fzero fone R_arith].
  replace (1 * 1 + 0 * 0) with 1 by ring. apply sqrt_1.
Qed.

Lemma euler_angles_round_trip_witness :
  let '(roll, pitch, yaw) := rotation_matrix_to_euler_angles (eye3 : mat3 R) in
  exists transform,
    origin_and_rpy_to_transform (array1 [0; 0; 0]) (array1 [roll; pitch; yaw])
    = Ok transform
    /\ rotation_block transform = eye3.
Proof.
  apply (euler_angles_round_trip eye3).
  - exact eye3_is_rotation.
  - rewrite eye3_sy. lra.
Defined.

End EulerTheorems.

(** ** Further properties of the mesh operations *)

Lemma py_index_nth_error {A} (l : list A) (i : Z) (a : A) :
  valid_index l i -> nth_error l (Z.to_nat i) = Some a -> py_index l i = Ok a.
Proof.
  unfold valid_index, py_index. intros [Hlo Hhi] Hnth.
  destruct (Z.ltb_spec i 0) as [Hneg|_]; [lia|].
  destruct (Z.leb_spec 0 i) as [_|Hneg]; [|lia].
  destruct (Z.ltb_spec i (Z.of_nat (length l))) as [_|Hge]; [|lia].
  simpl. rewrite Hnth. reflexivity.
Qed.

Lemma py_index_Ok_nth_error {A} (l : list A) (i : Z) (a : A) :
  valid_index l i -> py_index l i = Ok a -> nth_error l (Z.to_nat i) = Some a.
Proof.
  unfold valid_index, py_index. intros [Hlo Hhi].
  destruct (Z.ltb_spec i 0) as [Hneg|_]; [lia|].
  destruct (Z.leb_spec 0 i) as [_|Hneg]; [|lia].
  destruct (Z.ltb_spec i (Z.of_nat (length l))) as [_|Hge]; [|lia].
  simpl. destruct (nth_error l (Z.to_nat i)); [congruence | discriminate].
Qed.

Lemma py_index_raises {A} (l : list A) (i : Z) :
  raises (py_index l i) = negb (index_in_range l i)
  /\ (raises (py_index l i) = true -> py_index l i = Raise IndexError).
Proof.
  unfold py_index, index_in_range.
  set (n := Z.of_nat (length l)).
  assert (Hn : (0 <= n)%Z) by (unfold n; lia).
  destruct (Z.ltb_spec i 0) as [Hneg|Hpos];
    destruct (Z.leb_spec (- n) i) as [Hlo|Hlo];
    destruct (Z.ltb_spec i n) as [Hhi|Hhi]; try lia; simpl.
  - destruct (Z.leb_spec 0 (i + n)) as [_|?]; [|lia].
    destruct (Z.ltb_spec (i + n) n) as [_|?]; [|lia]. simpl.
    destruct (nth_error l (Z.to_nat (i + n))) eqn:E; [split; [reflexivity | discriminate]|].
    apply nth_error_None in E. unfold n in *. lia.
  - destruct (Z.leb_spec 0 (i + n)) as [?|_]; [lia|]. simpl. auto.
  - destruct (Z.leb_spec 0 i) as [_|?]; [|lia].
    destruct (nth_error l (Z.to_nat i)) eqn:E; [split; [reflexivity | discriminate]|].
    apply nth_error_None in E. unfold n in *. lia.
  - destruct (Z.leb_spec 0 i) as [_|?]; [|lia]. simpl. auto.
Qed.

Section MeshInvariants.
Context {F : Type} `{Arith F}.
Local Open Scope num_scope.

Lemma combine_meshes_of_mat4 (parent_mesh child_mesh : Mesh F) (transform : mat4 F) :
  combine_meshes parent_mesh child_mesh (PyNdarray (ndarray_of_mat4 transform))
  = Ok {| points := points parent_mesh
                    ++ map (transform_point transform) (points child_mesh);
          faces := faces parent_mesh
                   ++ map (offset_face (Z.of_nat (length (points parent_mesh))))
                          (faces child_mesh) |}.
Proof.
  destruct transform as [[[[[[t00 t01] t02] t03] [[[t10 t11] t12] t13]]
                          [[[t20 t21] t22] t23]] [[[t30 t31] t32] t33]].
  unfold combine_meshes. cbn [ndarray_of_mat4 shape].
  rewrite bool_decide_eq_false_2 by auto.
  rewrite apply_transform_pointwise. reflexivity.
Qed.

(** X1.  Combining two meshes whose face indices are in range gives a mesh
    whose face indices are in range. *)
Theorem combine_meshes_valid (parent_mesh child_mesh : Mesh F) (transform : mat4 F) :
  valid_mesh parent_mesh -> valid_mesh child_mesh ->
  exists mesh,
    combine_meshes parent_mesh child_mesh (PyNdarray (ndarray_of_mat4 transform))
    = Ok mesh
    /\ valid_mesh mesh.
Proof.
  intros Hparent Hchild. rewrite combine_meshes_of_mat4. eexists. split; [reflexivity|].
  unfold valid_mesh, valid_index in *. cbn [points faces].
  rewrite length_app, length_map. apply Forall_app. split.
  - eapply Forall_impl; [exact Hparent|]. intros [[v0 v1] v2]. lia.
  - apply Forall_map. eapply Forall_impl; [exact Hchild|].
    intros [[v0 v1] v2]. unfold offset_face. lia.
Qed.

(** X2.  In the combined mesh a parent index still finds the parent's point,
    and a child index moved by [len(parent.points)] finds the child's point
    transformed. *)
Theorem combine_meshes_keeps_references (parent_mesh child_mesh : Mesh F)
    (transform : mat4 F) :
  exists mesh,
    combine_meshes parent_mesh child_mesh (PyNdarray (ndarray_of_mat4 transform))
    = Ok mesh
    /\ (forall v, valid_index (points parent_mesh) v ->
        py_index (points mesh) v = py_index (points parent_mesh) v)
    /\ (forall v p, valid_index (points child_mesh) v ->
        py_index (points child_mesh) v = Ok p ->
        py_index (points mesh) (v + Z.of_nat (length (points parent_mesh)))
        = Ok (transform_point transform p)).
Proof.
  rewrite combine_meshes_of_mat4. eexists. split; [reflexivity|].
  cbn [points]. split.
  - intros v Hv. destruct (py_index_valid _ _ Hv) as [p Hp]. rewrite Hp.
    apply py_index_nth_error.
    + unfold valid_index in *. rewrite length_app. lia.
    + apply py_index_Ok_nth_error in Hp; [|assumption].
      rewrite nth_error_app1; [assumption|]. unfold valid_index in Hv. lia.
  - intros v p Hv Hp. apply py_index_Ok_nth_error in Hp; [|assumption].
    unfold valid_index in Hv. apply py_index_nth_error.
    + unfold valid_index. rewrite length_app, length_map. lia.
    + rewrite nth_error_app2 by lia.
      replace (Z.to_nat (v + Z.of_nat (length (points parent_mesh)))
               - length (points parent_mesh))%nat with (Z.to_nat v) by lia.
      rewrite nth_error_map, Hp. reflexivity.
Qed.

Lemma for_each_raises {A S} (body : S -> A -> result S) (bad : A -> bool)
    (l : list A) :
  (forall s a, raises (body s a) = bad a) ->
  forall s, raises (for_each body l s) = existsb bad l.
Proof.
  intros Hbody. induction l as [|a l IH]; intros s; simpl; [reflexivity|].
  specialize (Hbody s a). destruct (body s a) as [s'|e]; simpl in *.
  - rewrite <- Hbody. apply IH.
  - rewrite <- Hbody. reflexivity.
Qed.

Lemma for_each_raises_IndexError {A S} (body : S -> A -> result S) (l : list A) :
  (forall s a, raises (body s a) = true -> body s a = Raise IndexError) ->
  forall s, raises (for_each body l s) = true ->
            for_each body l s = Raise IndexError.
Proof.
  intros Hbody. induction l as [|a l IH]; intros s; simpl; [discriminate|].
  specialize (Hbody s a). destruct (body s a) as [s'|e]; simpl in *.
  - apply IH.
  - intros _. apply Hbody. reflexivity.
Qed.

(** X3.  [get_center_of_mass] raises exactly when some face has an index
    outside [-len(points), len(points)), and what it raises is
    [IndexError]. *)
Theorem get_center_of_mass_raises (mesh : Mesh F) :
  raises (get_center_of_mass mesh)
  = existsb (fun face => negb (face_in_range mesh face)) (faces mesh)
  /\ (raises (get_center_of_mass mesh) = true ->
      get_center_of_mass mesh = Raise IndexError).
Proof.
  unfold get_center_of_mass, center_of_mass_loop.
  match goal with |- context [for_each ?b _ _] => set (body := b) end.
  assert (Hbody : forall s face,
             raises (body s face) = negb (face_in_range mesh face)
             /\ (raises (body s face) = true -> body s face = Raise IndexError)).
  { intros [tv c] [[v0 v1] v2]. unfold body, face_in_range.
    destruct (py_index_raises (points mesh) v0) as [E0 I0].
    destruct (py_index_raises (points mesh) v1) as [E1 I1].
    destruct (py_index_raises (points mesh) v2) as [E2 I2].
    destruct (py_index (points mesh) v0) as [p0|e0]; simpl in *;
      [|injection (I0 eq_refl) as ->; destruct (index_in_range _ v0); [discriminate | auto]].
    destruct (index_in_range _ v0); [simpl | discriminate].
    destruct (py_index (points mesh) v1) as [p1|e1]; simpl in *;
      [|injection (I1 eq_refl) as ->; destruct (index_in_range _ v1); [discriminate | auto]].
    destruct (index_in_range _ v1); [simpl | discriminate].
    destruct (py_index (points mesh) v2) as [p2|e2]; simpl in *;
      [|injection (I2 eq_refl) as ->; destruct (index_in_range _ v2); [discriminate | auto]].
    destruct (index_in_range _ v2); [simpl | discriminate].
    split; [reflexivity | discriminate]. }
  pose proof (for_each_raises body (fun face => negb (face_in_range mesh face))
                (faces mesh) (fun s a => proj1 (Hbody s a)) (0, zeros3)) as Hraise.
  pose proof (for_each_raises_IndexError body (faces mesh)
                (fun s a => proj2 (Hbody s a)) (0, zeros3)) as Hindex.
  destruct (for_each body (faces mesh) (0, zeros3)) as [[tv c]|e]; simpl in *.
  - split; [exact Hraise | discriminate].
  - split; [exact Hraise|]. intros _. injection (Hindex eq_refl) as ->. reflexivity.
Qed.

(** X4.  A mesh that [scale_mesh] returns has as many points as the input
    and its faces: scaling a mesh with face indices in range gives a mesh
    with face indices in range. *)
Theorem scale_mesh_valid (mesh : Mesh F) (scale : F) (about_origin : bool) :
  valid_mesh mesh -> (scale <=? 0) = false ->
  exists scaled,
    scale_mesh mesh scale about_origin = Ok scaled
    /\ length (points scaled) = length (points mesh)
    /\ faces scaled = faces mesh
    /\ valid_mesh scaled.
Proof.
  intros Hvalid Hscale. unfold scale_mesh.
  rewrite scale_mesh_with_unfold by assumption.
  assert (Hshape : forall pivot,
            exists scaled,
              Ok {| points := map (scale_about pivot scale) (points mesh);
                    faces := faces mesh |} = Ok scaled
              /\ length (points scaled) = length (points mesh)
              /\ faces scaled = faces mesh
              /\ valid_mesh scaled).
  { intros pivot. eexists. split; [reflexivity|].
    cbn [points faces]. rewrite length_map. repeat split.
    unfold valid_mesh, valid_index in *. cbn [points faces].
    rewrite length_map. exact Hvalid. }
  destruct about_origin; simpl.
  - apply Hshape.
  - destruct (get_center_of_mass_valid mesh Hvalid) as [pivot ->]. apply Hshape.
Qed.

End MeshInvariants.

Lemma triangle_valid : valid_mesh triangle.
Proof. repeat constructor; unfold valid_index; simpl; lia. Qed.

Lemma combine_meshes_valid_witness :
  exists mesh,
    combine_meshes triangle triangle (PyNdarray (ndarray_of_mat4 eye4)) = Ok mesh
    /\ valid_mesh mesh.
Proof. apply (combine_meshes_valid triangle triangle eye4); exact triangle_valid. Defined.

Lemma scale_mesh_valid_witness :
  exists scaled,
    scale_mesh triangle 2%float true = Ok scaled
    /\ length (points scaled) = length (points triangle)
    /\ faces scaled = faces triangle
    /\ valid_mesh scaled.
Proof.
  apply (scale_mesh_valid triangle 2%float true); [exact triangle_valid | reflexivity].
Defined.

(** ** Further properties of the inertia conversions and of validation *)

Section ConversionFacts.
Context {F : Type} `{Arith F}.
Local Open Scope num_scope.

Lemma py_index_small {A} (l : list A) (k : nat) :
  py_index l (Z.of_nat k)
  = match nth_error l k with Some a => Ok a | None => Raise IndexError end.
Proof.
  unfold py_index.
  destruct (Z.ltb_spec (Z.of_nat k) 0) as [Hneg|_]; [lia|].
  destruct (Z.leb_spec 0 (Z.of_nat k)) as [_|Hneg]; [|lia].
  rewrite Nat2Z.id.
  destruct (Z.ltb_spec (Z.of_nat k) (Z.of_nat (length l))) as [Hlt|Hge]; simpl.
  - reflexivity.
  - destruct (nth_error l k) eqn:E; [|reflexivity].
    assert (nth_error l k <> None) as Hsome by congruence.
    apply nth_error_Some in Hsome. lia.
Qed.

Lemma moments_to_matrix_six (ixx iyy izz ixy ixz iyz : F) (rest : list F) :
  moments_to_matrix (ixx :: iyy :: izz :: ixy :: ixz :: iyz :: rest)
  = Ok ((ixx, ixy, ixz), (ixy, iyy, iyz), (ixz, iyz, izz)).
Proof.
  unfold moments_to_matrix.
  rewrite (py_index_small _ 0), (py_index_small _ 1), (py_index_small _ 2),
    (py_index_small _ 3), (py_index_small _ 4), (py_index_small _ 5).
  reflexivity.
Qed.

(** X5.  [moments_to_matrix] returns exactly when its argument has at least
    6 entries and raises [IndexError] otherwise; the matrix it returns is
    symmetric, and entries past the sixth do not change it. *)
Theorem moments_to_matrix_total_on_six (inertia_moments : list F) :
  (raises (moments_to_matrix inertia_moments)
   = (length inertia_moments <? 6)%nat)
  /\ (raises (moments_to_matrix inertia_moments) = true ->
      moments_to_matrix inertia_moments = Raise IndexError)
  /\ (forall m, moments_to_matrix inertia_moments = Ok m ->
      symmetric3 m
      /\ moments_to_matrix (firstn 6 inertia_moments) = Ok m).
Proof.
  destruct inertia_moments as [|ixx [|iyy [|izz [|ixy [|ixz [|iyz rest]]]]]];
    try (unfold moments_to_matrix;
         rewrite ?(py_index_small _ 0), ?(py_index_small _ 1),
           ?(py_index_small _ 2), ?(py_index_small _ 3),
           ?(py_index_small _ 4), ?(py_index_small _ 5);
         simpl; repeat split; discriminate).
  rewrite moments_to_matrix_six. simpl.
  split; [reflexivity|]. split; [discriminate|].
  intros m Hm. injection Hm as <-.
  split; [reflexivity|].
  apply (moments_to_matrix_six ixx iyy izz ixy ixz iyz []).
Qed.

(** X6.  The moments that [moments_to_matrix] reads by position
    ([Ixx, Iyy, Izz, Ixy, Ixz, Iyz]) are the ones [matrix_to_moments] then
    files under the keys of the same names: the two orders agree through the
    matrix. *)
Theorem matrix_to_moments_of_moments `{Render F} (ixx iyy izz ixy ixz iyz : F) :
  exists m,
    moments_to_matrix [ixx; iyy; izz; ixy; ixz; iyz] = Ok m
    /\ matrix_to_moments m
       = {[ "ixx" := PyStr (py_str ixx);
            "ixy" := PyStr (py_str ixy);
            "ixz" := PyStr (py_str ixz);
            "iyy" := PyStr (py_str iyy);
            "iyz" := PyStr (py_str iyz);
            "izz" := PyStr (py_str izz) ]}.
Proof.
  eexists. split; [apply moments_to_matrix_six | reflexivity].
Qed.

End ConversionFacts.

(** ** Further properties of combine_dynamics, in exact arithmetic *)

Section AggregationTheorems.
Local Open Scope R_scope.

Ltac vec_field :=
  destruct_vecs;
  cbv [vadd vsub vmuls smulv vdivs dot cross outer madd msub smulm mmuls
       zeros3 zeros33 eye3 parallel_axis_term point_inertia steiner_shift
       transpose3 mass com inertia
       fadd fsub fmul fdiv fzero fone R_arith];
  repeat match goal with
         | |- (_, _) = (_, _) => apply (f_equal2 pair)
         end;
  try (field; assumption).

Lemma Rsum_app (l1 l2 : list R) : Rsum (l1 ++ l2) = Rsum l1 + Rsum l2.
Proof. induction l1 as [|x l1 IH]; simpl; [ring | rewrite IH; ring]. Qed.

Lemma vsum_app (l1 l2 : list (vec3 R)) :
  vsum (l1 ++ l2) = vadd (vsum l1) (vsum l2).
Proof.
  induction l1 as [|x l1 IH]; simpl; [symmetry; apply vadd_zeros3_l|].
  rewrite IH. symmetry. apply vadd_assoc.
Qed.

Lemma msum_app (l1 l2 : list (mat3 R)) :
  msum (l1 ++ l2) = madd (msum l1) (msum l2).
Proof.
  induction l1 as [|x l1 IH]; simpl; [symmetry; apply madd_zeros33_l|].
  rewrite IH. symmetry. apply madd_assoc.
Qed.

(** Moving the reference point of a sum of parallel-axis terms. *)
Lemma parallel_axis_shift (l : list (Dynamics R)) (c c' : vec3 R) :
  msum (map (parallel_axis_term c) l)
  = madd (msum (map (parallel_axis_term c') l))
         (steiner_shift (Rsum (map mass l))
                        (vsum (map (fun d => smulv (mass d) (com d)) l)) c c').
Proof.
  induction l as [|d l IH]; cbn [map msum fold_right vsum Rsum].
  - vec_field; ring.
  - fold (msum (map (parallel_axis_term c) l)).
    fold (msum (map (parallel_axis_term c') l)).
    fold (vsum (map (fun d => smulv (mass d) (com d)) l)).
    fold (Rsum (map mass l)).
    rewrite IH.
    generalize (msum (map (parallel_axis_term c') l)).
    generalize (vsum (map (fun d => smulv (mass d) (com d)) l)).
    generalize (Rsum (map mass l)).
    intros m s acc. vec_field; ring.
Qed.

(** About the centre of mass of the bodies, the shift is the parallel-axis
    term of their total mass. *)
Lemma steiner_shift_center (m : R) (s c : vec3 R) :
  m <> 0 ->
  steiner_shift m s c (vdivs s m) = smulm m (point_inertia (vsub (vdivs s m) c)).
Proof. intros Hm. vec_field. Qed.

Lemma parallel_axis_term_record (c x : vec3 R) (m : R) (i : mat3 R) :
  parallel_axis_term c {| mass := m; com := x; inertia := i |}
  = madd i (smulm m (point_inertia (vsub x c))).
Proof. reflexivity. Qed.

(** X7.  Bodies can be aggregated group by group: for two lists of bodies,
    each of positive total mass, combining the two combined bodies gives the
    record that combining all the bodies at once gives. *)
Theorem combine_dynamics_hierarchical (l1 l2 : list (Dynamics R)) :
  0 < Rsum (map mass l1) -> 0 < Rsum (map mass l2) ->
  combine_dynamics [combine_dynamics l1; combine_dynamics l2]
  = combine_dynamics (l1 ++ l2).
Proof.
  intros H1 H2.
  rewrite (combine_dynamics_unfold (l1 ++ l2)).
  rewrite (combine_dynamics_unfold [_; _]).
  rewrite (combine_dynamics_unfold l1), (combine_dynamics_unfold l2).
  cbv zeta. rewrite !map_app, Rsum_app, vsum_app, msum_app.
  set (m1 := Rsum (map mass l1)) in *.
  set (m2 := Rsum (map mass l2)) in *.
  set (s1 := vsum (map (fun d => smulv (mass d) (com d)) l1)).
  set (s2 := vsum (map (fun d => smulv (mass d) (com d)) l2)).
  destruct (decide (0 < m1)) as [_|]; [|contradiction].
  destruct (decide (0 < m2)) as [_|]; [|contradiction].
  cbn [map mass com inertia Rsum vsum msum fold_right].
  destruct (decide (0 < m1 + (m2 + 0))) as [_|Hn]; [|lra].
  destruct (decide (0 < m1 + m2)) as [_|Hn]; [|lra].
  assert (Hc : vdivs (vadd (smulv m1 (vdivs s1 m1))
                           (vadd (smulv m2 (vdivs s2 m2)) zeros3))
                     (m1 + (m2 + 0))
               = vdivs (vadd s1 s2) (m1 + m2)).
  { assert (m1 <> 0) by lra. assert (m2 <> 0) by lra.
    assert (m1 + m2 <> 0) by lra. assert (m1 + (m2 + 0) <> 0) by lra.
    vec_field; field; auto. }
  rewrite Hc. set (c := vdivs (vadd s1 s2) (m1 + m2)).
  f_equal; [ring|].
  rewrite (parallel_axis_shift l1 c (vdivs s1 m1)).
  rewrite (parallel_axis_shift l2 c (vdivs s2 m2)).
  fold m1 m2 s1 s2.
  rewrite (steiner_shift_center m1 s1 c) by lra.
  rewrite (steiner_shift_center m2 s2 c) by lra.
  rewrite !parallel_axis_term_record.
  generalize (msum (map (parallel_axis_term (vdivs s1 m1)) l1)).
  generalize (msum (map (parallel_axis_term (vdivs s2 m2)) l2)).
  generalize (smulm m1 (point_inertia (vsub (vdivs s1 m1) c))).
  generalize (smulm m2 (point_inertia (vsub (vdivs s2 m2) c))).
  intros a b i2 i1. vec_field; ring.
Qed.

Lemma Rsum_Permutation (l l' : list R) : Permutation l l' -> Rsum l = Rsum l'.
Proof. induction 1; simpl; lra. Qed.

Lemma vadd_swap (a b c : vec3 R) : vadd a (vadd b c) = vadd b (vadd a c).
Proof. vec_field; ring. Qed.

Lemma madd_swap (a b c : mat3 R) : madd a (madd b c) = madd b (madd a c).
Proof. vec_field; ring. Qed.

Lemma vsum_Permutation (l l' : list (vec3 R)) :
  Permutation l l' -> vsum l = vsum l'.
Proof.
  induction 1; simpl; [reflexivity | congruence | apply vadd_swap | congruence].
Qed.

Lemma msum_Permutation (l l' : list (mat3 R)) :
  Permutation l l' -> msum l = msum l'.
Proof.
  induction 1; simpl; [reflexivity | congruence | apply madd_swap | congruence].
Qed.

(** X8.  The order of the bodies does not matter: a permutation of the
    list gives the same record. *)
Theorem combine_dynamics_Permutation (l l' : list (Dynamics R)) :
  Permutation l l' -> combine_dynamics l = combine_dynamics l'.
Proof.
  intros Hperm. rewrite !combine_dynamics_unfold. cbv zeta.
  rewrite (Rsum_Permutation (map mass l) (map mass l'))
    by (apply Permutation_map, Hperm).
  rewrite (vsum_Permutation (map (fun d => smulv (mass d) (com d)) l)
                            (map (fun d => smulv (mass d) (com d)) l'))
    by (apply Permutation_map, Hperm).
  f_equal. apply msum_Permutation, Permutation_map, Hperm.
Qed.

(** X9.  A single body of positive mass is returned as it is. *)
Theorem combine_dynamics_single (d : Dynamics R) :
  0 < mass d -> combine_dynamics [d] = d.
Proof.
  intros Hpos. rewrite combine_dynamics_unfold.
  cbn [map Rsum vsum msum fold_right].
  destruct (decide (0 < mass d + 0)) as [_|Hn]; [|lra].
  assert (mass d <> 0) by lra. assert (mass d + 0 <> 0) by lra.
  destruct d as [m [[x y] z] [[[[i00 i01] i02] [[i10 i11] i12]] [[i20 i21] i22]]].
  cbn [mass com inertia] in *.
  cbv [vadd vsub vmuls smulv vdivs dot outer madd msub smulm
       zeros3 zeros33 eye3 parallel_axis_term mass com inertia
       fadd fsub fmul fdiv fzero fone R_arith].
  f_equal;
    repeat match goal with
           | |- (_, _) = (_, _) => apply (f_equal2 pair)
           end; field; assumption.
Qed.

Lemma symmetric3_madd (a b : mat3 R) :
  symmetric3 a -> symmetric3 b -> symmetric3 (madd a b).
Proof.
  unfold symmetric3.
  destruct a as [[[[a00 a01] a02] [[a10 a11] a12]] [[a20 a21] a22]].
  destruct b as [[[[b00 b01] b02] [[b10 b11] b12]] [[b20 b21] b22]].
  cbv [transpose3 madd vadd fadd R_arith]. intros Ha Hb.
  injection Ha; injection Hb; intros.
  repeat match goal with
         | |- (_, _) = (_, _) => apply (f_equal2 pair)
         end; congruence.
Qed.

Lemma symmetric3_point_inertia (m : R) (r : vec3 R) :
  symmetric3 (smulm m (point_inertia r)).
Proof. unfold symmetric3. vec_field; ring. Qed.

(** X10.  When the inertia matrix of every body is symmetric, so is the
    inertia matrix of the combined body. *)
Theorem combine_dynamics_symmetric (dynamics : list (Dynamics R)) :
  Forall (fun d => symmetric3 (inertia d)) dynamics ->
  symmetric3 (inertia (combine_dynamics dynamics)).
Proof.
  intros Hsym. rewrite combine_dynamics_unfold. cbv zeta. cbn [inertia].
  generalize (if decide (0 < Rsum (map mass dynamics))
              then vdivs (vsum (map (fun d => smulv (mass d) (com d)) dynamics))
                         (Rsum (map mass dynamics))
              else vsum (map (fun d => smulv (mass d) (com d)) dynamics)).
  intros c. induction Hsym as [|d l Hd _ IH]; cbn [map msum fold_right].
  - unfold symmetric3. reflexivity.
  - apply symmetric3_madd; [|exact IH].
    unfold parallel_axis_term. apply symmetric3_madd; [exact Hd|].
    apply symmetric3_point_inertia.
Qed.

Lemma combine_dynamics_hierarchical_witness :
  combine_dynamics
    [combine_dynamics (firstn 1 two_point_bodies);
     combine_dynamics (skipn 1 two_point_bodies)]
  = combine_dynamics (firstn 1 two_point_bodies ++ skipn 1 two_point_bodies).
Proof.
  apply (combine_dynamics_hierarchical (firstn 1 two_point_bodies)
                                       (skipn 1 two_point_bodies));
    simpl; lra.
Defined.

Lemma combine_dynamics_Permutation_witness :
  combine_dynamics two_point_bodies = combine_dynamics (rev two_point_bodies).
Proof.
  apply (combine_dynamics_Permutation two_point_bodies (rev two_point_bodies)).
  apply Permutation_rev.
Defined.

Lemma combine_dynamics_single_witness :
  combine_dynamics [ {| mass := 1; com := (1, 0, 0); inertia := zeros33 |} ]
  = {| mass := 1; com := (1, 0, 0); inertia := zeros33 |}.
Proof.
  apply (combine_dynamics_single
           {| mass := 1; com := (1, 0, 0); inertia := zeros33 |}).
  simpl. lra.
Defined.

Lemma combine_dynamics_symmetric_witness :
  symmetric3 (inertia (combine_dynamics two_point_bodies)).
Proof.
  apply (combine_dynamics_symmetric two_point_bodies).
  repeat constructor.
Defined.

End AggregationTheorems.

(** ** Further properties in exact arithmetic: tensors, points, transforms *)

Ltac mat3_entries :=
  repeat match goal with
         | |- (_, _) = (_, _) => apply (f_equal2 pair)
         end.

Ltac destruct_mat3 m :=
  destruct m as [[[[?a00 ?a01] ?a02] [[?a10 ?a11] ?a12]] [[?a20 ?a21] ?a22]].

Ltac unfold_mat3 :=
  cbv [matmul3 rowmul3 transpose3 dot eye3 det3 symmetric3
       fadd fsub fmul fdiv fneg fzero fone R_arith].

Section TensorTheorems.
Local Open Scope R_scope.

Lemma matmul3_assoc (a b c : mat3 R) :
  matmul3 (matmul3 a b) c = matmul3 a (matmul3 b c).
Proof.
  destruct_mat3 a. destruct_mat3 b. destruct_mat3 c.
  unfold_mat3. mat3_entries; ring.
Qed.

Lemma transpose3_matmul3 (a b : mat3 R) :
  transpose3 (matmul3 a b) = matmul3 (transpose3 b) (transpose3 a).
Proof.
  destruct_mat3 a. destruct_mat3 b. unfold_mat3. mat3_entries; ring.
Qed.

Lemma transpose3_involutive (a : mat3 R) : transpose3 (transpose3 a) = a.
Proof. destruct_mat3 a. reflexivity. Qed.

Lemma matmul3_eye3_l (a : mat3 R) : matmul3 eye3 a = a.
Proof. destruct_mat3 a. unfold_mat3. mat3_entries; ring. Qed.

Lemma matmul3_eye3_r (a : mat3 R) : matmul3 a eye3 = a.
Proof. destruct_mat3 a. unfold_mat3. mat3_entries; ring. Qed.

(** X11.  Rotating a tensor by R1 and the result by R2 is rotating it by
    the product R1 R2. *)
Theorem transform_inertia_tensor_compose (inertia_matrix rotation1 rotation2 : mat3 R) :
  (rotated ← transform_inertia_tensor (InertiaMatrix inertia_matrix) rotation1;
   transform_inertia_tensor (InertiaMatrix rotated) rotation2)
  = transform_inertia_tensor (InertiaMatrix inertia_matrix)
                             (matmul3 rotation1 rotation2).
Proof.
  unfold transform_inertia_tensor. simpl. f_equal.
  rewrite transpose3_matmul3, !matmul3_assoc. reflexivity.
Qed.

(** X12.  For an orthonormal R, rotating a tensor by R and the result by
    the transpose of R gives the tensor back. *)
Theorem transform_inertia_tensor_round_trip (inertia_matrix rotation : mat3 R) :
  matmul3 rotation (transpose3 rotation) = eye3 ->
  (rotated ← transform_inertia_tensor (InertiaMatrix inertia_matrix) rotation;
   transform_inertia_tensor (InertiaMatrix rotated) (transpose3 rotation))
  = Ok inertia_matrix.
Proof.
  intros Horth. unfold transform_inertia_tensor. simpl. f_equal.
  rewrite transpose3_involutive.
  rewrite <- (matmul3_assoc rotation), <- (matmul3_assoc rotation), Horth.
  rewrite matmul3_eye3_l, matmul3_assoc, Horth. apply matmul3_eye3_r.
Qed.

(** X13.  The rotation of a symmetric tensor is symmetric. *)
Theorem transform_inertia_tensor_symmetric (inertia_matrix rotation : mat3 R) :
  symmetric3 inertia_matrix ->
  exists rotated,
    transform_inertia_tensor (InertiaMatrix inertia_matrix) rotation = Ok rotated
    /\ symmetric3 rotated.
Proof.
  intros Hsym. eexists. split; [reflexivity|].
  unfold symmetric3 in *.
  rewrite !transpose3_matmul3, transpose3_involutive, Hsym.
  symmetry. apply matmul3_assoc.
Qed.

Lemma transform_inertia_tensor_round_trip_witness :
  (rotated ← transform_inertia_tensor (InertiaMatrix quarter_pitch) eye3;
   transform_inertia_tensor (InertiaMatrix rotated) (transpose3 eye3))
  = Ok quarter_pitch.
Proof.
  apply (transform_inertia_tensor_round_trip quarter_pitch eye3).
  apply matmul3_eye3_l.
Defined.

Lemma transform_inertia_tensor_symmetric_witness :
  exists rotated,
    transform_inertia_tensor (InertiaMatrix eye3) quarter_pitch = Ok rotated
    /\ symmetric3 rotated.
Proof.
  apply (transform_inertia_tensor_symmetric eye3 quarter_pitch). reflexivity.
Defined.

End TensorTheorems.

Section PointTheorems.
Local Open Scope R_scope.

Lemma transform_point_eye4 (p : vec3 R) : transform_point eye4 p = p.
Proof.
  destruct p as [[x y] z].
  cbv [transform_point eye4 fadd fmul fzero fone R_arith]. mat3_entries; ring.
Qed.

Lemma transform_point_matmul4 (a b : mat4 R) (p : vec3 R) :
  affine4 a ->
  transform_point b (transform_point a p) = transform_point (matmul4 b a) p.
Proof.
  destruct_mat4 a. destruct_mat4 b. destruct p as [[x y] z].
  unfold affine4. intros Hrow. injection Hrow as -> -> -> ->.
  cbv [transform_point]. unfold_mat4. mat3_entries; ring.
Qed.

Lemma apply_transform_matmul4 (points_ : list (vec3 R)) (a b : mat4 R) :
  affine4 a ->
  apply_transform (apply_transform points_ a) b
  = apply_transform points_ (matmul4 b a).
Proof.
  intros Ha. rewrite !apply_transform_pointwise, map_map.
  apply map_ext. intros p. apply transform_point_matmul4, Ha.
Qed.

Lemma apply_transform_eye4 (points_ : list (vec3 R)) :
  apply_transform points_ eye4 = points_.
Proof.
  rewrite apply_transform_pointwise. rewrite <- (map_id points_) at 2.
  apply map_ext, transform_point_eye4.
Qed.

(** X14.  The identity transform returns the points as they are. *)
Theorem apply_transform_identity (points_ : list (vec3 R)) :
  apply_transform points_ eye4 = points_
  /\ apply_transform points_ (mat4_of_ndarray (ndarray_of_mat4 eye4)) = points_.
Proof.
  assert (Hid : forall p : vec3 R, transform_point eye4 p = p)
    by apply transform_point_eye4.
  split; rewrite apply_transform_pointwise;
    rewrite <- (map_id points_) at 2; apply map_ext, Hid.
Qed.

(** X15.  Applying a transform whose bottom row is (0, 0, 0, 1) and then a
    second transform is applying their product, the second on the left. *)
Theorem apply_transform_compose (points_ : list (vec3 R)) (first second : mat4 R) :
  affine4 first ->
  apply_transform (apply_transform points_ first) second
  = apply_transform points_ (matmul4 second first).
Proof.
  intros Haffine. rewrite !apply_transform_pointwise, map_map.
  apply map_ext. intros p. apply transform_point_matmul4, Haffine.
Qed.

Lemma affine4_rpy_transform (x y z roll pitch yaw : R) :
  affine4 (rpy_transform x y z roll pitch yaw).
Proof. reflexivity. Qed.

Lemma affine4_inverse (a ai : mat4 R) :
  affine4 a -> matmul4 a ai = eye4 -> affine4 ai.
Proof.
  destruct_mat4 a. destruct_mat4 ai. unfold affine4.
  intros Hrow. injection Hrow as -> -> -> ->.
  unfold_mat4. intros Hprod.
  injection Hprod as _ _ _ _ _ _ _ _ _ _ _ _ H30 H31 H32 H33.
  mat3_entries; lra.
Qed.

(** X16.  Points moved by the transform of an origin and three angles and
    then by its [inv_tf] are back where they were, and so are points moved by
    the inverse first. *)
Theorem apply_transform_inv_tf (points_ : list (vec3 R)) (x y z roll pitch yaw : R) :
  exists transform inverse,
    origin_and_rpy_to_transform (array1 [x; y; z]) (array1 [roll; pitch; yaw])
    = Ok transform
    /\ inv_tf transform = Ok inverse
    /\ apply_transform (apply_transform points_ transform) inverse = points_
    /\ apply_transform (apply_transform points_ inverse) transform = points_.
Proof.
  destruct (linalg_inv_inverse (rpy_transform x y z roll pitch yaw))
    as (inverse & Hinv & Hleft & Hright).
  { rewrite det4_rpy_transform. lra. }
  exists (rpy_transform x y z roll pitch yaw), inverse.
  split; [apply origin_and_rpy_to_transform_entries|].
  split; [exact Hinv|]. split.
  - rewrite apply_transform_matmul4 by apply affine4_rpy_transform.
    rewrite Hleft. apply apply_transform_eye4.
  - rewrite apply_transform_matmul4
      by (eapply affine4_inverse; [apply affine4_rpy_transform | exact Hright]).
    rewrite Hright. apply apply_transform_eye4.
Qed.

Lemma is_rotation_of_cos_sin (cr sr cp sp cy sy : R) :
  sr * sr + cr * cr = 1 -> sp * sp + cp * cp = 1 -> sy * sy + cy * cy = 1 ->
  is_rotation (rotation_of_cos_sin cr sr cp sp cy sy)
  /\ matmul3 (transpose3 (rotation_of_cos_sin cr sr cp sp cy sy))
             (rotation_of_cos_sin cr sr cp sp cy sy) = eye3.
Proof.
  intros Hr Hp Hy. unfold is_rotation, rotation_of_cos_sin.
  cbv [matmul3 rowmul3 transpose3 dot eye3 det3
       fadd fsub fmul fzero fone R_arith].
  repeat split; mat3_entries; nsatz.
Qed.

(** X17.  The transform of an origin and three angles is rigid: its
    rotation block is orthonormal with determinant 1, its bottom row is
    (0, 0, 0, 1), and it takes the point (0, 0, 0) to the origin given. *)
Theorem origin_and_rpy_to_transform_rigid (x y z roll pitch yaw : R) :
  exists transform,
    origin_and_rpy_to_transform (array1 [x; y; z]) (array1 [roll; pitch; yaw])
    = Ok transform
    /\ is_rotation (rotation_block transform)
    /\ affine4 transform
    /\ apply_transform [(0, 0, 0)] transform = [(x, y, z)].
Proof.
  exists (rpy_transform x y z roll pitch yaw).
  split; [apply origin_and_rpy_to_transform_entries|].
  pose proof (sin2_cos2 roll) as Hr.
  pose proof (sin2_cos2 pitch) as Hp.
  pose proof (sin2_cos2 yaw) as Hy.
  unfold Rsqr in Hr, Hp, Hy.
  split; [|split].
  - rewrite rotation_block_rpy_transform.
    apply is_rotation_of_cos_sin; assumption.
  - apply affine4_rpy_transform.
  - rewrite apply_transform_pointwise. cbn [map]. f_equal.
    cbv [transform_point rpy_transform fadd fmul fzero fone R_arith].
    mat3_entries; ring.
Qed.

(** X18.  The transform of an origin and three angles keeps the distance
    between any two points. *)
Theorem origin_and_rpy_to_transform_isometry (x y z roll pitch yaw : R)
    (p q : vec3 R) :
  exists transform,
    origin_and_rpy_to_transform (array1 [x; y; z]) (array1 [roll; pitch; yaw])
    = Ok transform
    /\ dot (vsub (transform_point transform p) (transform_point transform q))
           (vsub (transform_point transform p) (transform_point transform q))
       = dot (vsub p q) (vsub p q).
Proof.
  exists (rpy_transform x y z roll pitch yaw).
  split; [apply origin_and_rpy_to_transform_entries|].
  pose proof (sin2_cos2 roll) as Hr.
  pose proof (sin2_cos2 pitch) as Hp.
  pose proof (sin2_cos2 yaw) as Hy.
  unfold Rsqr in Hr, Hp, Hy.
  destruct p as [[px py] pz]. destruct q as [[qx qy] qz].
  cbv [transform_point rpy_transform dot vsub fadd fsub fmul fzero fone R_arith].
  generalize dependent (cos roll). generalize dependent (sin roll).
  generalize dependent (cos pitch). generalize dependent (sin pitch).
  generalize dependent (cos yaw). generalize dependent (sin yaw).
  intros. nsatz.
Qed.

Lemma apply_transform_compose_witness :
  apply_transform (apply_transform (points octant_face) eye4) eye4
  = apply_transform (points octant_face) (matmul4 eye4 eye4).
Proof.
  apply (apply_transform_compose (points octant_face) eye4 eye4). reflexivity.
Defined.

End PointTheorems.

(** ** The inverse of a rigid transform, in exact arithmetic *)

Section InverseTheorems.
Local Open Scope R_scope.

Lemma matmul4_assoc (a b c : mat4 R) :
  matmul4 (matmul4 a b) c = matmul4 a (matmul4 b c).
Proof.
  destruct_mat4 a. destruct_mat4 b. destruct_mat4 c.
  unfold_mat4. mat4_entries; ring.
Qed.

Lemma matmul4_eye4_l (a : mat4 R) : matmul4 eye4 a = a.
Proof. destruct_mat4 a. unfold_mat4. mat4_entries; ring. Qed.

Lemma matmul4_eye4_r (a : mat4 R) : matmul4 a eye4 = a.
Proof. destruct_mat4 a. unfold_mat4. mat4_entries; ring. Qed.

Lemma rigid_inverse_rpy_transform (x y z roll pitch yaw : R) :
  matmul4 (rpy_transform x y z roll pitch yaw)
          (rigid_inverse (rpy_transform x y z roll pitch yaw)) = eye4.
Proof.
  pose proof (sin2_cos2 roll) as Hr.
  pose proof (sin2_cos2 pitch) as Hp.
  pose proof (sin2_cos2 yaw) as Hy.
  unfold Rsqr in Hr, Hp, Hy.
  cbv [rpy_transform rigid_inverse]. unfold_mat4.
  generalize dependent (cos roll). generalize dependent (sin roll).
  generalize dependent (cos pitch). generalize dependent (sin pitch).
  generalize dependent (cos yaw). generalize dependent (sin yaw).
  intros. mat4_entries; nsatz.
Qed.

(** X19.  The inverse that [inv_tf] returns for the transform of an origin
    and three angles is the transposed rotation with the translation
    [- R^T t], over the bottom row (0, 0, 0, 1). *)
Theorem inv_tf_rigid (x y z roll pitch yaw : R) :
  exists transform,
    origin_and_rpy_to_transform (array1 [x; y; z]) (array1 [roll; pitch; yaw])
    = Ok transform
    /\ inv_tf transform = Ok (rigid_inverse transform).
Proof.
  exists (rpy_transform x y z roll pitch yaw).
  split; [apply origin_and_rpy_to_transform_entries|].
  destruct (linalg_inv_inverse (rpy_transform x y z roll pitch yaw))
    as (inverse & Hinv & Hleft & _).
  { rewrite det4_rpy_transform. lra. }
  unfold inv_tf. rewrite Hinv. f_equal.
  rewrite <- (matmul4_eye4_r inverse).
  rewrite <- (rigid_inverse_rpy_transform x y z roll pitch yaw).
  rewrite <- matmul4_assoc, Hleft. apply matmul4_eye4_l.
Qed.

End InverseTheorems.

(** ** The Euler angles, further *)

Section GimbalLock.
Local Open Scope R_scope.
Local Abbreviation sqrt := R_sqrt.sqrt.

(** X20.  At the gimbal lock itself, a rotation matrix with [sy = 0], the
    angles returned have yaw 0 and still rebuild the matrix. *)
Theorem euler_angles_round_trip_gimbal_lock (rotation_matrix : mat3 R) :
  is_rotation rotation_matrix ->
  sy_of rotation_matrix = 0 ->
  let '(roll, pitch, yaw) := rotation_matrix_to_euler_angles rotation_matrix in
  yaw = 0
  /\ exists transform,
       origin_and_rpy_to_transform (array1 [0; 0; 0]) (array1 [roll; pitch; yaw])
       = Ok transform
       /\ rotation_block transform = rotation_matrix.
Proof.
  destruct rotation_matrix as [[[[r00 r01] r02] [[r10 r11] r12]] [[r20 r21] r22]].
  intros Hrot Hsy. unfold sy_of in Hsy.
  unfold rotation_matrix_to_euler_angles.
  change (fsqrt (r00 * r00 + r10 * r10)%num) with (sqrt (r00 * r00 + r10 * r10)).
  rewrite Hsy.
  cbv [fltb lit_1em6 R_arith].
  rewrite bool_decide_eq_true_2 by lra.
  cbv [fatan2 R_trig fneg R_arith fzero].
  split; [reflexivity|].
  eexists. split; [apply origin_and_rpy_to_transform_entries|].
  rewrite rotation_block_rpy_transform.
  apply sqrt_eq_0 in Hsy; [|nra].
  assert (E00 : r00 = 0) by nra. assert (E10 : r10 = 0) by nra.
  destruct Hrot as [Horth Hdet].
  cbv [matmul3 rowmul3 transpose3 dot eye3 fadd fmul fzero fone R_arith]
    in Horth.
  cbv [det3 fadd fsub fmul R_arith] in Hdet.
  injection Horth as H00 H01 H02 H10 H11 H12 H20 H21 H22.
  assert (Hcol : r00 * r00 + r10 * r10 + r20 * r20 = 1) by nsatz.
  assert (E20 : r20 * r20 = 1) by nra.
  assert (E21 : r21 = 0) by nra. assert (E22 : r22 = 0) by nra.
  assert (Hrow1 : r11 * r11 + - r12 * - r12 = 1) by nra.
  destruct (Ratan2_cos_sin (- r12) r11) as [Hcr Hsr].
  { destruct (Req_dec r11 0) as [E|]; [|left; assumption]. right. nra. }
  rewrite Hrow1, sqrt_1 in Hcr, Hsr.
  destruct (Ratan2_cos_sin (- r20) 0) as [Hcp Hsp]; [right; nra|].
  replace (0 * 0 + - r20 * - r20) with 1 in Hcp, Hsp by nra.
  rewrite sqrt_1 in Hcp, Hsp.
  rewrite Hcr, Hsr, Hcp, Hsp, cos_0, sin_0.
  unfold rotation_of_cos_sin. subst r00 r10 r21 r22.
  mat3_entries; try (field_simplify; nsatz); try nsatz.
Qed.

Lemma quarter_pitch_is_rotation : is_rotation quarter_pitch.
Proof.
  split.
  - cbv [quarter_pitch matmul3 rowmul3 transpose3 dot eye3
         fadd fmul fzero fone R_arith].
    mat3_entries; ring.
  - cbv [quarter_pitch det3 fadd fsub fmul fzero fone R_arith]. ring.
Qed.

Lemma quarter_pitch_sy : sy_of quarter_pitch = 0.
Proof.
  cbv [sy_of quarter_pitch].
  replace (0 * 0 + 0 * 0) with 0 by ring. apply sqrt_0.
Qed.

Lemma euler_angles_round_trip_gimbal_lock_witness :
  let '(roll, pitch, yaw) := rotation_matrix_to_euler_angles quarter_pitch in
  yaw = 0
  /\ exists transform,
       origin_and_rpy_to_transform (array1 [0; 0; 0]) (array1 [roll; pitch; yaw])
       = Ok transform
       /\ rotation_block transform = quarter_pitch.
Proof.
  apply (euler_angles_round_trip_gimbal_lock quarter_pitch).
  - exact quarter_pitch_is_rotation.
  - exact quarter_pitch_sy.
Defined.

End GimbalLock.

Section AnglesTheorems.
Local Open Scope R_scope.
Local Abbreviation sqrt := R_sqrt.sqrt.

Lemma cos_zero_half_turn (a : R) :
  - PI < a <= PI -> cos a = 0 -> a = PI / 2 \/ a = - (PI / 2).
Proof.
  intros [Hlo Hhi] Hcos. pose proof PI_RGT_0 as Hpi.
  destruct (Rtotal_order a (PI / 2)) as [Hlt|[Heq|Hgt]]; [|left; assumption|].
  - destruct (Rtotal_order a (- (PI / 2))) as [Hlt'|[Heq'|Hgt']];
      [|right; assumption|].
    + pose proof (cos_lt_0 (- a) ltac:(lra) ltac:(lra)) as Hneg.
      rewrite cos_neg in Hneg. lra.
    + pose proof (cos_gt_0 a Hgt' Hlt). lra.
  - pose proof (cos_lt_0 a Hgt ltac:(lra)). lra.
Qed.

Lemma tan_shift_PI (a : R) : cos a <> 0 -> tan (a + PI) = tan a.
Proof.
  intros Hcos. unfold tan. rewrite neg_sin, neg_cos. field. assumption.
Qed.

(** [atan2] recovers the angle of a point given by its polar coordinates. *)
Lemma Ratan2_polar (h a : R) :
  0 < h -> - PI < a <= PI -> Ratan2 (h * sin a) (h * cos a) = a.
Proof.
  intros Hh [Hlo Hhi]. pose proof PI_RGT_0 as Hpi. unfold Ratan2.
  destruct (Rtotal_order (cos a) 0) as [Hneg|[Hzero|Hpos]].
  - (* cos a < 0 *)
    assert (Hx : h * cos a < 0) by nra.
    destruct (decide (0 < h * cos a)) as [?|_]; [lra|].
    destruct (decide (h * cos a < 0)) as [_|?]; [|lra].
    replace (h * sin a / (h * cos a)) with (tan a) by (unfold tan; field; lra).
    assert (Hrange : a < - (PI / 2) \/ PI / 2 < a).
    { destruct (Rle_dec (- (PI / 2)) a) as [H1|H1]; [|left; lra].
      destruct (Rle_dec a (PI / 2)) as [H2|H2]; [|right; lra].
      pose proof (cos_ge_0 a H1 H2). lra. }
    destruct (decide (0 <= h * sin a)) as [Hy|Hy].
    + assert (Hsin : 0 <= sin a) by nra.
      destruct Hrange as [Hbelow|Habove].
      * pose proof (sin_lt_0_var a Hlo ltac:(lra)). lra.
      * assert (Hc : cos (a - PI) <> 0).
        { pose proof (neg_cos (a - PI)) as E.
          replace (a - PI + PI) with a in E by ring. lra. }
        assert (Ht : tan a = tan (a - PI)).
        { rewrite <- (tan_shift_PI (a - PI)) by assumption.
          replace (a - PI + PI) with a by ring. reflexivity. }
        rewrite Ht, atan_tan by lra. ring.
    + assert (Hsin : sin a < 0) by nra.
      destruct Hrange as [Hbelow|Habove].
      * rewrite <- (tan_shift_PI a) by lra.
        rewrite atan_tan by lra. ring.
      * pose proof (sin_ge_0 a ltac:(lra) Hhi). lra.
  - (* cos a = 0 *)
    rewrite Hzero, Rmult_0_r.
    destruct (decide (0 < 0)) as [?|_]; [lra|].
    destruct (decide (0 < 0)) as [?|_]; [lra|].
    destruct (cos_zero_half_turn a (conj Hlo Hhi) Hzero) as [-> | ->].
    + rewrite sin_PI2.
      destruct (decide (0 < h * 1)) as [_|?]; [reflexivity | lra].
    + rewrite sin_neg, sin_PI2.
      destruct (decide (0 < h * - (1))) as [?|_]; [lra|].
      destruct (decide (h * - (1) < 0)) as [_|?]; [field | lra].
  - (* 0 < cos a *)
    assert (Hx : 0 < h * cos a) by nra.
    destruct (decide (0 < h * cos a)) as [_|?]; [|lra].
    replace (h * sin a / (h * cos a)) with (tan a) by (unfold tan; field; lra).
    apply atan_tan.
    destruct (Rle_dec (PI / 2) a) as [H1|H1].
    { pose proof (cos_le_0 a H1 ltac:(lra)). lra. }
    destruct (Rle_dec a (- (PI / 2))) as [H2|H2].
    { pose proof (cos_le_0 (- a) ltac:(lra) ltac:(lra)) as Hc.
      rewrite cos_neg in Hc. lra. }
    lra.
Qed.

(** X21.  Away from the gimbal lock the angles are recovered: for roll and
    yaw in (-pi, pi], pitch in (-pi/2, pi/2) and [cos(pitch) >= 1e-6],
    [rotation_matrix_to_euler_angles] of the rotation block that
    [origin_and_rpy_to_transform] builds returns (roll, pitch, yaw). *)
Theorem euler_angles_of_transform (roll pitch yaw : R) :
  - PI < roll <= PI -> - (PI / 2) < pitch < PI / 2 -> - PI < yaw <= PI ->
  1 / 1000000 <= cos pitch ->
  exists transform,
    origin_and_rpy_to_transform (array1 [0; 0; 0]) (array1 [roll; pitch; yaw])
    = Ok transform
    /\ rotation_matrix_to_euler_angles (rotation_block transform)
       = (roll, pitch, yaw).
Proof.
  intros Hroll Hpitch Hyaw Hcos. pose proof PI_RGT_0 as Hpi.
  eexists. split; [apply origin_and_rpy_to_transform_entries|].
  rewrite rotation_block_rpy_transform.
  unfold rotation_of_cos_sin, rotation_matrix_to_euler_angles.
  cbv [fsqrt fatan2 R_trig fltb fneg fadd fmul fzero lit_1em6 R_arith].
  assert (Hsy : sqrt (cos yaw * cos pitch * (cos yaw * cos pitch)
                      + sin yaw * cos pitch * (sin yaw * cos pitch))
                = cos pitch).
  { pose proof (sin2_cos2 yaw) as Hy. unfold Rsqr in Hy.
    replace (cos yaw * cos pitch * (cos yaw * cos pitch)
             + sin yaw * cos pitch * (sin yaw * cos pitch))
      with (cos pitch * cos pitch) by nra.
    apply sqrt_square. lra. }
  rewrite Hsy. rewrite bool_decide_eq_false_2 by lra.
  rewrite (Ratan2_polar (cos pitch) roll) by lra.
  replace (- - sin pitch) with (1 * sin pitch) by ring.
  replace (cos pitch) with (1 * cos pitch) at 1 by ring.
  rewrite (Ratan2_polar 1 pitch) by lra.
  replace (sin yaw * cos pitch) with (cos pitch * sin yaw) by ring.
  replace (cos yaw * cos pitch) with (cos pitch * cos yaw) by ring.
  rewrite (Ratan2_polar (cos pitch) yaw) by lra.
  reflexivity.
Qed.

Lemma euler_angles_of_transform_witness :
  exists transform,
    origin_and_rpy_to_transform (array1 [0; 0; 0]) (array1 [0; 0; 0])
    = Ok transform
    /\ rotation_matrix_to_euler_angles (rotation_block transform) = (0, 0, 0).
Proof.
  pose proof PI_RGT_0 as Hpi.
  apply (euler_angles_of_transform 0 0 0); try lra.
  rewrite cos_0. lra.
Defined.

End AnglesTheorems.

Section RangeTheorems.
Local Open Scope R_scope.
Local Abbreviation sqrt := R_sqrt.sqrt.

Lemma atan_neg (t : R) : t < 0 -> atan t < 0.
Proof.
  intros Hneg. pose proof (atan_increasing t 0 Hneg) as Hinc.
  rewrite atan_0 in Hinc. exact Hinc.
Qed.

Lemma Ratan2_range (y x : R) : - PI < Ratan2 y x <= PI.
Proof.
  pose proof PI_RGT_0 as Hpi. unfold Ratan2.
  destruct (decide (0 < x)) as [Hpos|_].
  { pose proof (atan_bound (y / x)). lra. }
  destruct (decide (x < 0)) as [Hneg|_].
  - pose proof (atan_bound (y / x)) as Hb.
    destruct (decide (0 <= y)) as [Hy|Hy].
    + assert (Hq : y / x <= 0).
      { unfold Rdiv. pose proof (Rinv_lt_0_compat x Hneg).
        assert (0 <= y * - / x) by (apply Rmult_le_pos; lra).
        replace (y * / x) with (- (y * - / x)) by ring. lra. }
      destruct Hq as [Hq|Hq].
      * pose proof (atan_neg _ Hq). lra.
      * rewrite Hq, atan_0. lra.
    + assert (Hq : 0 < y / x).
      { unfold Rdiv. pose proof (Rinv_lt_0_compat x Hneg).
        assert (0 < - y * - / x) by (apply Rmult_lt_0_compat; lra).
        replace (y * / x) with (- y * - / x) by ring. lra. }
      pose proof (atan_increasing 0 _ Hq) as Hinc. rewrite atan_0 in Hinc. lra.
  - destruct (decide (0 < y)); [lra|]. destruct (decide (y < 0)); lra.
Qed.

Lemma Ratan2_right_half (y x : R) :
  0 <= x -> - (PI / 2) <= Ratan2 y x <= PI / 2.
Proof.
  pose proof PI_RGT_0 as Hpi. intros Hx. unfold Ratan2.
  destruct (decide (0 < x)) as [Hpos|_].
  { pose proof (atan_bound (y / x)). lra. }
  destruct (decide (x < 0)) as [Hneg|_]; [lra|].
  destruct (decide (0 < y)); [lra|]. destruct (decide (y < 0)); lra.
Qed.

(** X22.  Whatever the matrix, the angles returned lie in the principal
    ranges: roll and yaw in (-pi, pi], pitch in [-pi/2, pi/2]. *)
Theorem rotation_matrix_to_euler_angles_range (rotation_matrix : mat3 R) :
  let '(roll, pitch, yaw) := rotation_matrix_to_euler_angles rotation_matrix in
  - PI < roll <= PI
  /\ - (PI / 2) <= pitch <= PI / 2
  /\ - PI < yaw <= PI.
Proof.
  destruct rotation_matrix as [[[[r00 r01] r02] [[r10 r11] r12]] [[r20 r21] r22]].
  pose proof PI_RGT_0 as Hpi.
  unfold rotation_matrix_to_euler_angles.
  cbv [fsqrt fatan2 R_trig fzero R_arith].
  pose proof (sqrt_pos (r00 * r00 + r10 * r10)%num) as Hsy.
  destruct (_ <? _)%num.
  - split; [apply Ratan2_range|]. split; [apply Ratan2_right_half, Hsy | lra].
  - split; [apply Ratan2_range|].
    split; [apply Ratan2_right_half, Hsy | apply Ratan2_range].
Qed.

End RangeTheorems.

(** ** The centre of mass of a scaled mesh, in exact arithmetic *)

Lemma py_index_map {A B} (f : A -> B) (l : list A) (i : Z) :
  py_index (map f l) i
  = match py_index l i with Ok a => Ok (f a) | Raise e => Raise e end.
Proof.
  unfold py_index. rewrite length_map.
  destruct (_ && _)%bool; [|reflexivity].
  rewrite nth_error_map. destruct (nth_error l _); reflexivity.
Qed.

Section CenterOfMassTheorems.
Local Open Scope R_scope.

Lemma center_of_mass_loop_scaled (points_ : list (vec3 R)) (s : R)
    (faces_ : list (Z * Z * Z)) :
  center_of_mass_loop
    {| points := map (scale_about (0, 0, 0) s) points_; faces := faces_ |}
  = match center_of_mass_loop {| points := points_; faces := faces_ |} with
    | Ok (v, n) => Ok (s * s * s * v, smulv (s * s * s * s) n)
    | Raise e => Raise e
    end.
Proof.
  unfold center_of_mass_loop. cbn [points faces].
  match goal with
  | |- for_each ?scaled_body _ _ = match for_each ?body _ _ with _ => _ end =>
      assert (Hloop : forall v n,
                 for_each scaled_body faces_
                          (s * s * s * v, smulv (s * s * s * s) n)
                 = match for_each body faces_ (v, n) with
                   | Ok (v, n) => Ok (s * s * s * v, smulv (s * s * s * s) n)
                   | Raise e => Raise e
                   end)
  end.
  { induction faces_ as [|[[v0 v1] v2] faces_ IH]; intros v n; [reflexivity|].
    cbn [for_each]. rewrite !py_index_map.
    destruct (py_index points_ v0) as [p0|e0]; [|reflexivity].
    destruct (py_index points_ v1) as [p1|e1]; [|reflexivity].
    destruct (py_index points_ v2) as [p2|e2]; [|reflexivity].
    cbn [mbind result_bind].
    match goal with
    | |- for_each _ _ ?acc = match for_each _ _ ?acc0 with _ => _ end =>
        replace acc with (s * s * s * fst acc0, smulv (s * s * s * s) (snd acc0))
    end.
    - apply IH.
    - destruct p0 as [[x0 y0] z0]. destruct p1 as [[x1 y1] z1].
      destruct p2 as [[x2 y2] z2]. destruct n as [[n0 n1] n2].
      cbv [fst snd scale_about vadd vsub vmuls smulv vdivs dot cross
           fadd fsub fmul fdiv fzero lit_4 lit_6 R_arith].
      f_equal; [field|]. mat3_entries; field. }
  rewrite <- (Hloop 0 zeros3). f_equal.
  cbv [smulv zeros3 fzero fmul R_arith]. f_equal; [ring|]. mat3_entries; ring.
Qed.

(** X23.  Scaling a mesh about the origin scales its centre of mass: for
    [scale > 0] and a mesh of total signed volume other than zero, the centre
    of mass of [scale_mesh(mesh, scale, about_origin=True)] is [scale] times
    the centre of mass of the mesh. *)
Theorem get_center_of_mass_scale_mesh (mesh : Mesh R) (scale : R)
    (total_volume : R) (weighted : vec3 R) :
  0 < scale ->
  center_of_mass_loop mesh = Ok (total_volume, weighted) ->
  total_volume <> 0 ->
  exists c scaled,
    get_center_of_mass mesh = Ok c
    /\ scale_mesh mesh scale true = Ok scaled
    /\ get_center_of_mass scaled = Ok (smulv scale c).
Proof.
  intros Hscale Hloop Hvolume.
  exists (vdivs weighted total_volume). eexists.
  split; [unfold get_center_of_mass; rewrite Hloop; reflexivity|].
  split.
  { unfold scale_mesh. rewrite scale_mesh_with_unfold; [reflexivity|].
    cbv [fleb fzero R_arith]. apply bool_decide_eq_false_2. lra. }
  unfold get_center_of_mass. destruct mesh as [points_ faces_]. cbn [points faces].
  rewrite center_of_mass_loop_scaled, Hloop. cbn [mbind result_bind]. f_equal.
  destruct weighted as [[n0 n1] n2].
  cbv [vdivs smulv fdiv fmul R_arith]. mat3_entries; field; split; lra.
Qed.

Lemma get_center_of_mass_scale_mesh_witness :
  exists c scaled,
    get_center_of_mass octant_face = Ok c
    /\ scale_mesh octant_face 2 true = Ok scaled
    /\ get_center_of_mass scaled = Ok (smulv 2 c).
Proof.
  eapply (get_center_of_mass_scale_mesh octant_face 2).
  - lra.
  - reflexivity.
  - cbv [dot cross fadd fsub fmul fdiv fzero lit_6 R_arith]. lra.
Defined.

End CenterOfMassTheorems.

(** ** A NaN scale, in binary64 *)

Lemma Prim2SF_nan : Prim2SF nan = S754_nan.
Proof. reflexivity. Qed.

Lemma float_mul_nan (a : float) : (a * nan)%float = nan.
Proof.
  apply Prim2SF_inj. rewrite FloatAxioms.mul_spec, Prim2SF_nan.
  unfold SF64mul, SFmul. destruct (Prim2SF a); reflexivity.
Qed.

Lemma float_nan_add (a : float) : (nan + a)%float = nan.
Proof.
  apply Prim2SF_inj. rewrite FloatAxioms.add_spec, Prim2SF_nan. reflexivity.
Qed.

(** X24.  A NaN scale is not rejected: [nan <= 0] is false, so on a mesh
    with face indices in range [scale_mesh] raises nothing and returns the
    mesh with every coordinate NaN, with or without [about_origin]. *)
Theorem scale_mesh_nan (mesh : Mesh float) (about_origin : bool) :
  valid_mesh mesh ->
  scale_mesh mesh nan about_origin
  = Ok {| points := map (fun _ => (nan, nan, nan)) (points mesh);
          faces := faces mesh |}.
Proof.
  intros Hvalid. unfold scale_mesh.
  rewrite scale_mesh_with_unfold by reflexivity.
  assert (Hnan : forall pivot p, scale_about pivot nan p = (nan, nan, nan)).
  { intros [[c0 c1] c2] [[x y] z].
    cbv [scale_about vadd vmuls vsub fadd fsub fmul float_arith].
    rewrite !float_mul_nan, !float_nan_add. reflexivity. }
  destruct about_origin; simpl.
  - f_equal. f_equal. apply map_ext. intros p. apply Hnan.
  - destruct (get_center_of_mass_valid mesh Hvalid) as [pivot ->]. simpl.
    f_equal. f_equal. apply map_ext. intros p. apply Hnan.
Qed.

Lemma scale_mesh_nan_witness :
  scale_mesh triangle nan false
  = Ok {| points := map (fun _ => (nan, nan, nan)) (points triangle);
          faces := faces triangle |}.
Proof.
  apply (scale_mesh_nan triangle false).
  repeat constructor; unfold valid_index; simpl; lia.
Defined.
